(** * twitch-chat-bot: the classification and dispatch engine of [bot.py]

    A shallow embedding of [bot.py]: the regular expressions and Python's
    backtracking matcher for the fragment they use, [str.format] for the
    fragment the templates use, the [Response] classes, the handler
    registry, the uptime computation on [datetime] values, and the
    read-dispatch-write loop of [amain] as a function from the incoming
    lines to the trace of its effects. *)

From Stdlib Require Import List String Ascii ZArith Lia Bool Arith.
From Stdlib Require Import DecimalString.
Import ListNotations.

Local Open Scope list_scope.
Local Open Scope string_scope.

Set Implicit Arguments.

(* ================================================================== *)
(** * Text *)

(** Python [str] values are modelled as [string]; the characters the
    program inspects are all ASCII. *)

Definition CR : ascii := "013"%char.
Definition LF : ascii := "010"%char.
Definition SP : ascii := " "%char.

(** ['\r\n'] *)
Definition CRLF : string := String CR (String LF EmptyString).

Definition str1 (c : ascii) : string := String c EmptyString.

(** [c in s] for a one-character [c]. *)
Fixpoint occurs (c : ascii) (s : string) : bool :=
  match s with
  | EmptyString => false
  | String a s' => Ascii.eqb a c || occurs c s'
  end.

(** [s.endswith(t)] *)
Definition endswith (s t : string) : bool :=
  (String.length t <=? String.length s)%nat &&
  String.eqb (substring (String.length s - String.length t) (String.length t) s) t.

(** A line as [StreamReader.readline] returns it: the bytes up to and
    including the first line feed, or up to the end of the stream when
    no line feed came.  A line feed can only be its last character. *)
Fixpoint is_line (s : string) : bool :=
  match s with
  | EmptyString => true
  | String a s' =>
      if Ascii.eqb a LF then
        match s' with EmptyString => true | _ => false end
      else is_line s'
  end.

(* ================================================================== *)
(** * Regular expressions *)

(** The fragment of Python's [re] syntax the program's patterns are
    written in.  Flags are [re.U] only: no MULTILINE, no DOTALL. *)

Inductive cclass : Type :=
| Dot                 (* [.]    any character except a line feed *)
| NotChar (c : ascii) (* [[^c]] any character except [c], line feed included *).

Inductive regex : Type :=
| Bol                                   (* [^]  start of the string *)
| Eol                                   (* [$]  end of the string, or just
                                           before a line feed that ends it *)
| Lit (s : string)                      (* literal characters *)
| Star (cc : cclass)                    (* [cc*], greedy *)
| Plus (cc : cclass)                    (* [cc+], greedy *)
| Group (n : nat) (name : option string) (r : regex)
                                        (* [(r)] or [(?P<name>r)], group number n *)
| Cat (r1 r2 : regex).

Declare Scope regex_scope.
Delimit Scope regex_scope with re.
Bind Scope regex_scope with regex.
Infix "+++" := Cat (at level 60, right associativity) : regex_scope.

Definition cc_matches (cc : cclass) (a : ascii) : bool :=
  match cc with
  | Dot => negb (Ascii.eqb a LF)
  | NotChar c => negb (Ascii.eqb a c)
  end.

(** Captures: group number to captured text, latest binding first. *)
Definition captures := list (nat * string).

Fixpoint cap_get (n : nat) (c : captures) : option string :=
  match c with
  | [] => None
  | (k, v) :: c' => if Nat.eqb k n then Some v else cap_get n c'
  end.

Section Engine.

Variable A : Type.

(** [k w rest c]: the continuation receives the text [w] consumed by
    the node, the input left and the captures. *)
Definition cont := string -> string -> captures -> option A.

(** If [s] starts with [l], the rest of [s]. *)
Fixpoint strip_prefix (l s : string) : option string :=
  match l with
  | EmptyString => Some s
  | String a l' =>
      match s with
      | EmptyString => None
      | String b s' => if Ascii.eqb a b then strip_prefix l' s' else None
      end
  end.

(** Greedy repetition: consume as many characters of the class as
    there are, and give characters back one at a time while what
    follows fails. *)
Fixpoint star (cc : cclass) (s : string) (k : string -> string -> option A)
  : option A :=
  match s with
  | EmptyString => k EmptyString s
  | String a s' =>
      if cc_matches cc a then
        match star cc s' (fun w rest => k (String a w) rest) with
        | Some x => Some x
        | None => k EmptyString s
        end
      else k EmptyString s
  end.

(** [exec r pos s c k]: match [r] against [s], the input from
    position [pos] on; backtracking is the order in which the
    alternatives of [star] are tried. *)
Fixpoint exec (r : regex) (pos : nat) (s : string) (c : captures) (k : cont)
  : option A :=
  match r with
  | Bol => if Nat.eqb pos 0 then k EmptyString s c else None
  | Eol =>
      match s with
      | EmptyString => k EmptyString s c
      | String a EmptyString => if Ascii.eqb a LF then k EmptyString s c else None
      | _ => None
      end
  | Lit l =>
      match strip_prefix l s with
      | Some rest => k l rest c
      | None => None
      end
  | Star cc => star cc s (fun w rest => k w rest c)
  | Plus cc =>
      match s with
      | EmptyString => None
      | String a s' =>
          if cc_matches cc a
          then star cc s' (fun w rest => k (String a w) rest c)
          else None
      end
  | Group n _ r' => exec r' pos s c (fun w rest c' => k w rest ((n, w) :: c'))
  | Cat r1 r2 =>
      exec r1 pos s c (fun w1 s1 c1 =>
        exec r2 (pos + String.length w1) s1 c1 (fun w2 s2 c2 =>
          k (w1 ++ w2) s2 c2))
  end.

End Engine.

(** Number of groups and the name table of a pattern ([Pattern.groups],
    [Pattern.groupindex]). *)
Fixpoint ngroups (r : regex) : nat :=
  match r with
  | Group n _ r' => Nat.max n (ngroups r')
  | Cat r1 r2 => Nat.max (ngroups r1) (ngroups r2)
  | _ => 0
  end.

Fixpoint groupindex (r : regex) : list (string * nat) :=
  match r with
  | Group n (Some name) r' => (name, n) :: groupindex r'
  | Group _ None r' => groupindex r'
  | Cat r1 r2 => (groupindex r1 ++ groupindex r2)%list
  | _ => []
  end.

(** A match object. *)
Record Match : Type := mkMatch {
  m_re : regex;          (* [match.re] *)
  m_string : string;     (* [match.string] *)
  m_group0 : string;     (* [match.group(0)], the text matched *)
  m_caps : captures
}.

(** [pattern.match(s)]: a match that starts at position 0. *)
Definition re_match (p : regex) (s : string) : option Match :=
  exec p 0 s [] (fun w _ c => Some (mkMatch p s w c)).

(** [match.group(n)] / [match[n]] for [n >= 1]; [None] when the group
    took no part in the match. *)
Definition group (m : Match) (n : nat) : option string := cap_get n (m_caps m).

(** [match.groups()] *)
Definition groups (m : Match) : list (option string) :=
  map (group m) (seq 1 (ngroups (m_re m))).

(** [match.groupdict()], as the list of its items. *)
Definition groupdict (m : Match) : list (string * option string) :=
  map (fun '(name, n) => (name, group m n)) (groupindex (m_re m)).

(** [str(x)] of a value that is a string or [None], as f-strings and
    [format] render it. *)
Definition py_str (v : option string) : string :=
  match v with Some s => s | None => "None" end.

(* ================================================================== *)
(** * The module-level patterns *)

(** [MSG_RE = re.compile('^:([^!]+).* PRIVMSG #[^ ]+ :([^\r]+)')] *)
Definition MSG_RE : regex :=
  (Bol +++ Lit ":" +++ Group 1 None (Plus (NotChar "!")) +++ Star Dot +++
   Lit " PRIVMSG #" +++ Plus (NotChar SP) +++ Lit " :" +++
   Group 2 None (Plus (NotChar CR)))%re.

(** [SEND_MSG_RE = re.compile('^PRIVMSG #[^ ]+ :(?P<msg>[^\r]+)')] *)
Definition SEND_MSG_RE : regex :=
  (Bol +++ Lit "PRIVMSG #" +++ Plus (NotChar SP) +++ Lit " :" +++
   Group 1 (Some "msg") (Plus (NotChar CR)))%re.


(* ================================================================== *)
(** * Exceptions and results *)

(** What a call raises.  [except Exception] in [amain] catches the
    first kind only. *)
Inductive exn : Type :=
| Exc (type_name : string)     (* an instance of a subclass of [Exception] *)
| SysExc (type_name : string)  (* any other [BaseException]: KeyboardInterrupt,
                                  SystemExit, asyncio.CancelledError *).

(** [type(e).__name__] *)
Definition type_name (e : exn) : string :=
  match e with Exc n => n | SysExc n => n end.

(** The result of a call.  [Unmodelled] marks an input on which this
    development does not say what Python does (see [format]). *)
Inductive outcome (A : Type) : Type :=
| Return (a : A)
| Raise (e : exn)
| Unmodelled.

Arguments Return {A} a.
Arguments Raise {A} e.
Arguments Unmodelled {A}.

Definition bind {A B : Type} (x : outcome A) (f : A -> outcome B) : outcome B :=
  match x with
  | Return a => f a
  | Raise e => Raise e
  | Unmodelled => Unmodelled
  end.

Notation "x <- e1 ;; e2" := (bind e1 (fun x => e2))
  (at level 61, e1 at next level, right associativity).

(* ================================================================== *)
(** * String operations of the standard library *)

(** [s.replace(old, new)] for a one-character [old]. *)
Fixpoint replace (old : ascii) (new : string) (s : string) : string :=
  match s with
  | EmptyString => EmptyString
  | String a s' =>
      if Ascii.eqb a old then new ++ replace old new s'
      else String a (replace old new s')
  end.

(** [esc], lines 45-46. *)
Definition esc (s : string) : string :=
  replace "}" "}}" (replace "{" "{{" s).

(** [s.partition(sep)] for a one-character [sep]. *)
Fixpoint partition (sep : ascii) (s : string) : string * string * string :=
  match s with
  | EmptyString => (EmptyString, EmptyString, EmptyString)
  | String a s' =>
      if Ascii.eqb a sep then (EmptyString, str1 sep, s')
      else let '(before, sp, after) := partition sep s' in
           (String a before, sp, after)
  end.

(** [s.startswith(t)] *)
Definition startswith (s t : string) : bool :=
  match strip_prefix t s with Some _ => true | None => false end.

(** [sub in s] *)
Fixpoint contains (sub s : string) : bool :=
  startswith s sub ||
  match s with
  | EmptyString => false
  | String _ s' => contains sub s'
  end.

(** [str(n)] *)
Definition str_of_Z (n : Z) : string := NilZero.string_of_int (Z.to_int n).

(** [f'{n:02}'] for [n >= 0]. *)
Definition fmt02 (n : Z) : string :=
  let s := str_of_Z n in
  if (String.length s <? 2)%nat then "0" ++ s else s.

(** Keyword arguments of [format], a dict seen through item lookup. *)
Definition kwargs := list (string * option string).

Fixpoint getitem (k : string) (d : kwargs) : option (option string) :=
  match d with
  | [] => None
  | (k', v) :: d' => if String.eqb k' k then Some v else getitem k d'
  end.

(** [d[k] = v] *)
Definition setitem (k : string) (v : option string) (d : kwargs) : kwargs :=
  (k, v) :: d.

Definition is_digit (a : ascii) : bool :=
  (48 <=? nat_of_ascii a)%nat && (nat_of_ascii a <=? 57)%nat.

Fixpoint all_digits (s : string) : bool :=
  match s with
  | EmptyString => true
  | String a s' => is_digit a && all_digits s'
  end.

(** Characters that give a replacement field more structure than a
    plain name: nesting, indexing, attribute access, conversion and
    format specification. *)
Definition field_special (a : ascii) : bool :=
  Ascii.eqb a "{" || Ascii.eqb a "[" || Ascii.eqb a "." ||
  Ascii.eqb a "!" || Ascii.eqb a ":".

(** The number a string of decimal digits denotes. *)
Fixpoint decimal_value (acc : Z) (s : string) : Z :=
  match s with
  | EmptyString => acc
  | String a s' => decimal_value (10 * acc + (Z.of_nat (nat_of_ascii a) - 48)) s'
  end.

(** The largest index a field name may denote, [sys.maxsize] of a
    64-bit interpreter. *)
Definition PY_SSIZE_T_MAX : Z := 9223372036854775807.

(** The value substituted for the field [{name}] when [format] is
    called with keyword arguments only: an empty or numeric name is a
    positional index, and there are no positional arguments; a numeric
    name above [PY_SSIZE_T_MAX] is refused before it is looked up. *)
Definition field_value (name : string) (kw : kwargs) : outcome string :=
  if all_digits name then
    if (PY_SSIZE_T_MAX <? decimal_value 0 name)%Z then Raise (Exc "ValueError")
    else Raise (Exc "IndexError")
  else match getitem name kw with
       | Some v => Return (py_str v)
       | None => Raise (Exc "KeyError")
       end.

Definition prepend (a : ascii) (r : outcome string) : outcome string :=
  s <- r ;; Return (String a s).

(** [fmt.format] called with the keyword arguments [kw].  [field] is
    [None] while literal text is read and [Some name] inside a
    replacement field whose name read so far is [name].  Doubled
    braces are literal braces; a single closing brace, or a field left
    open, is a ValueError.  A field with [field_special] characters,
    which Python does format, is outside what is modelled
    ([Unmodelled]); no template of the program has one, and
    [plain_template] below tells the templates that have none. *)
Fixpoint format_from (field : option string) (fmt : string) (kw : kwargs)
  : outcome string :=
  match field with
  | None =>
      match fmt with
      | EmptyString => Return EmptyString
      | String a rest =>
          if Ascii.eqb a "{" then
            match rest with
            | EmptyString => Raise (Exc "ValueError")
            | String b rest' =>
                if Ascii.eqb b "{" then prepend "{" (format_from None rest' kw)
                else format_from (Some EmptyString) rest kw
            end
          else if Ascii.eqb a "}" then
            match rest with
            | EmptyString => Raise (Exc "ValueError")
            | String b rest' =>
                if Ascii.eqb b "}" then prepend "}" (format_from None rest' kw)
                else Raise (Exc "ValueError")
            end
          else prepend a (format_from None rest kw)
      end
  | Some name =>
      match fmt with
      | EmptyString => Raise (Exc "ValueError")
      | String a rest =>
          if Ascii.eqb a "}" then
            v <- field_value name kw ;;
            s <- format_from None rest kw ;;
            Return (v ++ s)
          else if field_special a then Unmodelled
          else format_from (Some (name ++ str1 a)) rest kw
      end
  end.

Definition format (fmt : string) (kw : kwargs) : outcome string :=
  format_from None fmt kw.

(** The replacement fields of the template are plain names: none has a
    [field_special] character.  The template is read as [format_from]
    reads it, [in_field] saying whether a field is open; after a brace
    that [format] refuses nothing more is read. *)
Fixpoint plain_from (in_field : bool) (fmt : string) : bool :=
  match fmt with
  | EmptyString => true
  | String a rest =>
      if in_field then
        if Ascii.eqb a "}" then plain_from false rest
        else negb (field_special a) && plain_from true rest
      else if Ascii.eqb a "{" then
        match rest with
        | EmptyString => true
        | String b rest' =>
            if Ascii.eqb b "{" then plain_from false rest' else plain_from true rest
        end
      else if Ascii.eqb a "}" then
        match rest with
        | EmptyString => true
        | String b rest' => if Ascii.eqb b "}" then plain_from false rest' else true
        end
      else plain_from false rest
  end.

Definition plain_template (fmt : string) : bool := plain_from false fmt.

(** [PRIVMSG = 'PRIVMSG #{channel} :{msg}\r\n'] *)
Definition PRIVMSG : string := "PRIVMSG #{channel} :{msg}" ++ CRLF.

(* ================================================================== *)
(** * Configuration, lines 28-32 *)

Record Config : Type := mkConfig {
  username : string;
  channel : string;
  oauth_token : string;
  client_id : string
}.

(* ================================================================== *)
(** * Dates and durations *)

Local Open Scope Z_scope.

(** A naive [datetime.datetime]. *)
Record datetime : Type := mkDatetime {
  year : Z; month : Z; day : Z;
  hour : Z; minute : Z; second : Z; microsecond : Z
}.

(** A [datetime.timedelta], kept normalised by [timedelta_new]:
    [0 <= seconds < 86400] and [0 <= microseconds < 1000000]. *)
Record timedelta : Type := mkTimedelta {
  days : Z; seconds : Z; microseconds : Z
}.

Definition is_leap (y : Z) : bool :=
  (y mod 4 =? 0) && (negb (y mod 100 =? 0) || (y mod 400 =? 0)).

Definition days_before_year (y : Z) : Z :=
  let y := y - 1 in y * 365 + y / 4 - y / 100 + y / 400.

Definition DAYS_BEFORE_MONTH : list Z :=
  [-1; 0; 31; 59; 90; 120; 151; 181; 212; 243; 273; 304; 334].

Definition days_before_month (y m : Z) : Z :=
  nth (Z.to_nat m) DAYS_BEFORE_MONTH 0 +
  (if (2 <? m) && is_leap y then 1 else 0).

(** [date.toordinal()]: day 1 is 0001-01-01. *)
Definition toordinal (d : datetime) : Z :=
  days_before_year (year d) + days_before_month (year d) (month d) + day d.

(** [timedelta(days, seconds, microseconds)] on integers. *)
Definition timedelta_new (d s us : Z) : timedelta :=
  let s := s + us / 1000000 in
  let us := us mod 1000000 in
  let d := d + s / 86400 in
  let s := s mod 86400 in
  mkTimedelta d s us.

(** [a - b] on two naive datetimes. *)
Definition datetime_sub (a b : datetime) : timedelta :=
  timedelta_new
    (toordinal a - toordinal b)
    ((second a + minute a * 60 + hour a * 3600) -
     (second b + minute b * 60 + hour b * 3600))
    (microsecond a - microsecond b).

(** The whole duration in microseconds; [timedelta.total_seconds()]
    is this number divided by [10^6]. *)
Definition total_microseconds (t : timedelta) : Z :=
  (days t * 86400 + seconds t) * 1000000 + microseconds t.

(* ================================================================== *)
(** * The world outside the process *)

(** What lines 123-135 of [UptimeResponse.__call__] obtain: the GET
    request, [response.text()], [json.loads(text)['data']] and, when the
    array is not empty, [strptime] of [data[0]['started_at']] with the
    format ['%Y-%m-%dT%H:%M:%SZ'].  [StatusData l] is an array with
    one record per element of [l]; only the start time of the first
    record is ever read.  Any failure on the way is [StatusFails]. *)
Inductive status_reply : Type :=
| StatusFails (e : exn)
| StatusData (started_at : list datetime).

(** What one iteration of the loop observes of the outside. *)
Record World : Type := mkWorld {
  http_get : string -> string -> status_reply;  (* url, Client-ID header *)
  utcnow : datetime;     (* [datetime.datetime.utcnow()], line 136 *)
  now_recv : datetime;   (* [datetime.datetime.now()] in [dt_str], line 181 *)
  now_send : datetime    (* [datetime.datetime.now()] in [dt_str], line 197 *)
}.

(** [dt_str], lines 163-165, at local time [dt_now]. *)
Definition dt_str (dt_now : datetime) : string :=
  ("[" ++ fmt02 (hour dt_now) ++ ":" ++ fmt02 (minute dt_now) ++ "]")%string.

(* ================================================================== *)
(** * Effects *)

Inductive event : Type :=
| Stderr (text : string)   (* written to [sys.stderr] *)
| Stdout (text : string)   (* [print] to standard output *)
| PrintExc (e : exn)       (* [traceback.print_exc()] *)
| Write (data : string)    (* [writer.write(data.encode())] then [drain()] *)
| Call (i : nat)           (* ghost: the handler of rule number [i] is invoked *).

(** [send], lines 49-53. *)
Definition send (msg : string) (quiet : bool) : list event :=
  ((if quiet then [] else [Stderr ("< " ++ msg)]) ++ [Write msg])%list.

(** [recv], lines 56-62; [data] is the line read. *)
Definition recv (data : string) (quiet : bool) : list event :=
  if quiet then [] else [Stderr ("> " ++ data)].

(* ================================================================== *)
(** * Responses, lines 65-86 and 118-148 *)

(** A [Response] is what its [__call__] does. *)
Record Response : Type := mkResponse {
  call : Config -> World -> outcome (option string)
}.

Definition BaseResponse : Response :=
  mkResponse (fun _ _ => Return None).

Definition CmdResponse (cmd : string) : Response :=
  mkResponse (fun _ _ => Return (Some cmd)).

Definition MessageResponse (m : Match) (msg_fmt : string) : Response :=
  mkResponse (fun _ _ =>
    let params := groupdict m in
    msg <- format msg_fmt params ;;
    let params := setitem "msg" (Some msg) params in
    line <- format PRIVMSG params ;;
    Return (Some line)).

(** The loop of lines 138-146, from the state [(elapsed, parts)]. *)
Fixpoint uptime_parts (units : list (Z * string)) (elapsed : Z) (parts : list string)
  : list string :=
  match units with
  | [] => parts
  | (n, unit) :: units' =>
      let parts :=
        if elapsed / n =? 0 then parts
        else (parts ++ [str_of_Z (elapsed / n) ++ " " ++ unit]%string)%list in
      uptime_parts units' (elapsed mod n) parts
  end.

Definition UNITS : list (Z * string) :=
  [(60 * 60, "hours"); (60, "minutes"); (1, "seconds")]%string.

(** The address of the request, line 120. *)
Definition status_url (config : Config) : string :=
  ("https://api.twitch.tv/helix/streams?user_login=" ++ channel config)%string.

Definition UptimeResponse : Response :=
  mkResponse (fun config w =>
    let url := status_url config in
    match http_get w url (client_id config) with
    | StatusFails e => Raise e
    | StatusData [] =>
        let msg := "not currently streaming!"%string in
        line <- format PRIVMSG [("channel", Some (channel config)); ("msg", Some msg)]%string ;;
        Return (Some line)
    | StatusData (start_time :: _) =>
        let elapsed := seconds (datetime_sub (utcnow w) start_time) in
        let parts := uptime_parts UNITS elapsed [] in
        let msg := ("streaming for: " ++ String.concat ", " parts)%string in
        line <- format PRIVMSG [("channel", Some (channel config)); ("msg", Some msg)]%string ;;
        Return (Some line)
    end).

Local Close Scope Z_scope.

(* ================================================================== *)
(** * The handler registry, lines 89-110 *)

Definition Callback : Type := Match -> outcome Response.
Definition rule : Type := regex * Callback.

(** [prefix + '\r\n$'], line 97: the pattern registered for a prefix. *)
Definition registered (prefix : regex) : regex := (prefix +++ Lit CRLF +++ Eol)%re.

(** The decorator [handler] applied to [func], on the registry
    [HANDLERS]: one rule per prefix, appended in order. *)
Definition handler (prefixes : list regex) (func : Callback) (HANDLERS : list rule)
  : list rule :=
  (HANDLERS ++ map (fun prefix => (registered prefix, func)) prefixes)%list.

(** The characters with a meaning of their own in the syntax of [re]. *)
Definition regex_special (a : ascii) : bool :=
  Ascii.eqb a "." || Ascii.eqb a "^" || Ascii.eqb a "$" || Ascii.eqb a "*" ||
  Ascii.eqb a "+" || Ascii.eqb a "?" || Ascii.eqb a "{" || Ascii.eqb a "}" ||
  Ascii.eqb a "[" || Ascii.eqb a "]" || Ascii.eqb a "\" || Ascii.eqb a "|" ||
  Ascii.eqb a "(" || Ascii.eqb a ")".

(** A message prefix made of literal characters only, as ['!uptime']
    and ['PING'] are: read as a pattern, it matches itself. *)
Fixpoint is_literal (s : string) : bool :=
  match s with
  | EmptyString => true
  | String a s' => negb (regex_special a) && is_literal s'
  end.

(** The pattern [handle_message] builds around a message prefix.  The
    source interpolates the prefix into the text of the pattern; this
    is that pattern for the prefixes with [is_literal], the only ones
    the program registers, and says nothing of the others. *)
Definition message_pattern (message_prefix : string) : regex :=
  (Bol +++ Lit ":" +++ Group 1 (Some "user") (Plus (NotChar "!")) +++ Star Dot +++
   Lit " PRIVMSG #" +++ Group 2 (Some "channel") (Plus (NotChar SP)) +++
   Lit " :" +++ Group 3 (Some "msg") (Lit message_prefix +++ Star Dot))%re.

Definition handle_message (message_prefixes : list string) (func : Callback)
  (HANDLERS : list rule) : list rule :=
  handler (map message_pattern message_prefixes) func HANDLERS.

(** [match.group(n)]: IndexError when the pattern has no group [n]. *)
Definition match_group (m : Match) (n : nat) : outcome (option string) :=
  if (n <=? ngroups (m_re m))%nat then Return (group m n)
  else Raise (Exc "IndexError").

(** [pong], lines 113-115. *)
Definition pong : Callback := fun m =>
  g <- match_group m 1 ;;
  Return (CmdResponse ("PONG " ++ py_str g ++ CRLF)).

(** [cmd_uptime], lines 151-153. *)
Definition cmd_uptime : Callback := fun _ => Return UptimeResponse.

(** [msg_ping], lines 156-160.  Unpacking needs exactly three groups,
    and [partition] a string. *)
Definition msg_ping : Callback := fun m =>
  match groups m with
  | [_; _; msg] =>
      match msg with
      | Some msg =>
          let '(_, _, rest) := partition SP msg in
          Return (MessageResponse m ("PONG " ++ esc rest))
      | None => Raise (Exc "AttributeError")
      end
  | _ => Raise (Exc "ValueError")
  end.

(** The registry after the module is loaded: the three decorated
    functions, in the order of their definition. *)
Definition PONG_PREFIX : regex := (Bol +++ Lit "PING " +++ Group 1 None (Star Dot))%re.

Definition HANDLERS : list rule :=
  handle_message ["PING"] msg_ping
    (handle_message ["!uptime"] cmd_uptime
      (handler [PONG_PREFIX] pong [])).

(** The patterns of its three rules. *)
Definition PONG_PATTERN : regex := registered PONG_PREFIX.

Definition MESSAGE_PATTERN (message_prefix : string) : regex :=
  registered (message_pattern message_prefix).

(* ================================================================== *)
(** * [amain], lines 168-202 *)

(** How an iteration ends: the loop goes on, an exception leaves it,
    or the run left what is modelled. *)
Inductive fate : Type :=
| Continue
| Crash (e : exn)
| Stuck.

(** Lines 179-181: the log entry of an incoming chat message. *)
Definition log_incoming (w : World) (msg : string) : list event :=
  match re_match MSG_RE msg with
  | Some msg_match =>
      [Stdout (dt_str (now_recv w) ++ "<" ++ py_str (group msg_match 1) ++ "> " ++
               py_str (group msg_match 2) ++ str1 LF)]
  | None => []
  end.

(** Lines 194-198: what is done with the resolved response. *)
Definition reply (config : Config) (quiet : bool) (w : World) (res : option string)
  : list event :=
  match res with
  | None => []
  | Some res =>
      ((match re_match SEND_MSG_RE res with
        | Some send_match =>
            [Stdout (dt_str (now_send w) ++ "<" ++ username config ++ "> " ++
                     py_str (group send_match 1) ++ str1 LF)]
        | None => []
        end) ++ send res quiet)%list
  end.

(** The text of the fallback message, line 192. *)
Definition unhandled_msg (e : exn) : string :=
  "*** unhandled " ++ type_name e ++ " -- see logs".

(** Lines 186-198 for the rule number [i], whose pattern gave [m]. *)
Definition respond (i : nat) (handler : Callback) (m : Match)
  (config : Config) (quiet : bool) (w : World) : list event * fate :=
  match (r <- handler m ;; call r config w) with
  | Return res => (Call i :: reply config quiet w res, Continue)
  | Raise (Exc n) =>
      match format PRIVMSG [("channel", Some (channel config));
                            ("msg", Some (unhandled_msg (Exc n)))] with
      | Return res =>
          (Call i :: PrintExc (Exc n) :: reply config quiet w (Some res), Continue)
      | Raise e' => ([Call i; PrintExc (Exc n)], Crash e')
      | Unmodelled => ([Call i; PrintExc (Exc n)], Stuck)
      end
  | Raise e => ([Call i], Crash e)
  | Unmodelled => ([Call i], Stuck)
  end.

(** Lines 183-202: the [for ... else] over the registry, from the rule
    number [i] on. *)
Fixpoint dispatch (i : nat) (handlers : list rule) (config : Config) (quiet : bool)
  (w : World) (msg : string) : list event * fate :=
  match handlers with
  | [] => (if quiet then [] else [Stdout ("UNHANDLED: " ++ msg)], Continue)
  | (pattern, handler) :: handlers' =>
      match re_match pattern msg with
      | Some m => respond i handler m config quiet w
      | None => dispatch (S i) handlers' config quiet w msg
      end
  end.

(** One turn of the [while True] loop, lines 176-202, on the incoming
    line [msg] (the decoded text of what [recv] returned). *)
Definition iteration (handlers : list rule) (config : Config) (quiet : bool)
  (w : World) (msg : string) : list event * fate :=
  let '(ev, f) := dispatch 0 handlers config quiet w msg in
  ((recv msg quiet ++ log_incoming w msg ++ ev)%list, f).

(** The loop over the lines that arrive, each with the world as its
    iteration sees it.  When the lines are used up the loop is waiting
    in [recv]. *)
Fixpoint main_loop (handlers : list rule) (config : Config) (quiet : bool)
  (incoming : list (World * string)) : list event * fate :=
  match incoming with
  | [] => ([], Continue)
  | (w, msg) :: incoming' =>
      match iteration handlers config quiet w msg with
      | (ev, Continue) =>
          let '(ev', f) := main_loop handlers config quiet incoming' in
          ((ev ++ ev')%list, f)
      | (ev, f) => (ev, f)
      end
  end.

(** Lines 171-173. *)
Definition bootstrap (config : Config) (quiet : bool) : list event :=
  (send ("PASS " ++ oauth_token config ++ CRLF) true ++
   send ("NICK " ++ username config ++ CRLF) quiet ++
   send ("JOIN #" ++ channel config ++ CRLF) quiet)%list.

(** [amain] with a given registry. *)
Definition amain_with (handlers : list rule) (config : Config) (quiet : bool)
  (incoming : list (World * string)) : list event * fate :=
  let '(ev, f) := main_loop handlers config quiet incoming in
  ((bootstrap config quiet ++ ev)%list, f).

Definition amain : Config -> bool -> list (World * string) -> list event * fate :=
  amain_with HANDLERS.

(** Projections of a trace. *)
Definition is_write (e : event) : option string :=
  match e with Write d => Some d | _ => None end.

Definition is_call (e : event) : option nat :=
  match e with Call i => Some i | _ => None end.

(** What reaches standard output or standard error. *)
Definition is_diagnostic (e : event) : bool :=
  match e with
  | Stderr _ | Stdout _ | PrintExc _ => true
  | Write _ | Call _ => false
  end.

Fixpoint filter_map {A B : Type} (f : A -> option B) (l : list A) : list B :=
  match l with
  | [] => []
  | a :: l' => match f a with Some b => b :: filter_map f l' | None => filter_map f l' end
  end.

Definition writes (t : list event) : list string := filter_map is_write t.
Definition calls (t : list event) : list nat := filter_map is_call t.
Definition diagnostics (t : list event) : list event := filter is_diagnostic t.

(* ================================================================== *)
(** * Vocabulary of the statements *)

(** Every character of [w] is in the class. *)
Fixpoint all_cc (cc : cclass) (w : string) : bool :=
  match w with
  | EmptyString => true
  | String a w' => cc_matches cc a && all_cc cc w'
  end.

(** [matches r pos w rest c c']: at position [pos], with [w ++ rest]
    ahead, [r] can consume [w]; the captures go from [c] to [c']. *)
Inductive matches : regex -> nat -> string -> string -> captures -> captures -> Prop :=
| M_Bol rest c :
    matches Bol 0 EmptyString rest c c
| M_Eol pos rest c :
    rest = EmptyString \/ rest = str1 LF ->
    matches Eol pos EmptyString rest c c
| M_Lit l pos rest c :
    matches (Lit l) pos l rest c c
| M_Star cc pos w rest c :
    all_cc cc w = true ->
    matches (Star cc) pos w rest c c
| M_Plus cc pos w rest c :
    w <> EmptyString -> all_cc cc w = true ->
    matches (Plus cc) pos w rest c c
| M_Group n name r pos w rest c c' :
    matches r pos w rest c c' ->
    matches (Group n name r) pos w rest c ((n, w) :: c')
| M_Cat r1 r2 pos w1 w2 rest c c1 c2 :
    matches r1 pos w1 (w2 ++ rest) c c1 ->
    matches r2 (pos + String.length w1) w2 rest c1 c2 ->
    matches (Cat r1 r2) pos (w1 ++ w2) rest c c2.

(** The chat line [PRIVMSG.format(channel=ch, msg=msg)]. *)
Definition privmsg (ch msg : string) : string :=
  "PRIVMSG #" ++ ch ++ " :" ++ msg ++ CRLF.

(** The configuration with another credential token. *)
Definition with_token (config : Config) (token : string) : Config :=
  mkConfig (username config) (channel config) token (client_id config).

(** One entry of the list of parts of the uptime message. *)
Definition part (n : Z) (unit : string) : list string :=
  if (n =? 0)%Z then [] else [str_of_Z n ++ " " ++ unit].

(** The text of a chat message starts with a character other than a
    carriage return. *)
Definition starts_visible (text : string) : bool :=
  match text with
  | EmptyString => false
  | String a _ => negb (Ascii.eqb a CR)
  end.

(** The chat line the server sends for a message [body] that the
    source [src] (nick!user@host) posts on the channel [chan]. *)
Definition chat_line (src chan body : string) : string :=
  ":" ++ src ++ " PRIVMSG #" ++ chan ++ " :" ++ body ++ CRLF.

(** The parts are such that the line is one line and its parts are
    where they appear to be: the source starts with a character of the
    nick and has no space, the channel name is not empty and has no
    space, and there is no line feed. *)
Definition chat_parts_ok (src chan body : string) : bool :=
  match src with
  | EmptyString => false
  | String a _ => negb (Ascii.eqb a "!")
  end &&
  negb (occurs SP src) && negb (occurs LF src) &&
  negb (String.eqb chan EmptyString) &&
  negb (occurs SP chan) && negb (occurs LF chan) &&
  negb (occurs LF body).

(** The character of the decimal digit [d]. *)
Definition digit (d : Z) : ascii := ascii_of_nat (48 + Z.to_nat d).

(** The events written to standard error by [send] and [recv]. *)
Definition is_stderr (e : event) : bool :=
  match e with Stderr _ => true | _ => false end.

(** The input [rest] does not go on with a character of the class. *)
Definition stops (cc : cclass) (rest : string) : Prop :=
  match rest with
  | EmptyString => True
  | String b _ => cc_matches cc b = false
  end.

(** The text of [s] before its first [c], all of [s] when it has none:
    the first component of [s.partition(c)]. *)
Definition before (c : ascii) (s : string) : string := fst (fst (partition c s)).

(** The source of a chat line: nick, then ['!'], then user and host. *)
Definition source (nick userhost : string) : string := nick ++ "!" ++ userhost.

(* ================================================================== *)
(** * Facts about strings *)

Section StringFacts.

Lemma sapp_nil_r (s : string) : s ++ EmptyString = s.
Proof. induction s; simpl; congruence. Qed.

Lemma sapp_assoc (a b c : string) : (a ++ b) ++ c = a ++ (b ++ c).
Proof. induction a; simpl; congruence. Qed.

Lemma slength_app (a b : string) :
  String.length (a ++ b) = String.length a + String.length b.
Proof. induction a; simpl; congruence. Qed.

Lemma to_list_app (a b : string) :
  list_ascii_of_string (a ++ b) =
  (list_ascii_of_string a ++ list_ascii_of_string b)%list.
Proof. induction a; simpl; congruence. Qed.

Lemma to_list_inj (a b : string) :
  list_ascii_of_string a = list_ascii_of_string b -> a = b.
Proof.
  intros H.
  rewrite <- (string_of_list_ascii_of_string a),
          <- (string_of_list_ascii_of_string b).
  now rewrite H.
Qed.

Lemma sapp_inv_head (a b c : string) : a ++ b = a ++ c -> b = c.
Proof. induction a; simpl; intros H; [assumption | injection H; auto]. Qed.

Lemma sapp_inv_tail (a b c : string) : a ++ c = b ++ c -> a = b.
Proof.
  intros H. apply to_list_inj.
  apply (f_equal list_ascii_of_string) in H.
  rewrite !to_list_app in H.
  now apply app_inv_tail in H.
Qed.

Lemma occurs_app (c : ascii) (a b : string) :
  occurs c (a ++ b) = occurs c a || occurs c b.
Proof.
  induction a as [|x a IH]; simpl; [reflexivity|].
  now rewrite IH, orb_assoc.
Qed.

Lemma strip_prefix_app (l rest : string) : strip_prefix l (l ++ rest) = Some rest.
Proof.
  induction l as [|a l IH]; simpl; [reflexivity|].
  now rewrite Ascii.eqb_refl.
Qed.

Lemma strip_prefix_inv (l s rest : string) :
  strip_prefix l s = Some rest -> s = l ++ rest.
Proof.
  revert s. induction l as [|a l IH]; simpl; intros s H.
  - congruence.
  - destruct s as [|b s]; [discriminate|].
    destruct (Ascii.eqb_spec a b) as [->|]; [|discriminate].
    f_equal. auto.
Qed.

End StringFacts.

(* ================================================================== *)
(** * What the matcher finds *)

Section EngineFacts.

Variable A : Type.

Lemma star_sound (cc : cclass) (s : string) :
  forall (k : string -> string -> option A) (x : A),
    star cc s k = Some x ->
    exists w rest, s = w ++ rest /\ all_cc cc w = true /\ k w rest = Some x.
Proof.
  induction s as [|a s IH]; simpl; intros k x H.
  - exists EmptyString, EmptyString. auto.
  - destruct (cc_matches cc a) eqn:Ha.
    + destruct (star cc s (fun w rest => k (String a w) rest)) as [y|] eqn:Hs.
      * injection H as <-.
        apply IH in Hs. destruct Hs as (w & rest & -> & Hw & Hk).
        exists (String a w), rest. simpl. rewrite Ha, Hw. auto.
      * exists EmptyString, (String a s). auto.
    + exists EmptyString, (String a s). auto.
Qed.

Lemma star_complete (cc : cclass) (w rest : string) :
  forall (k : string -> string -> option A),
    all_cc cc w = true -> k w rest <> None -> star cc (w ++ rest) k <> None.
Proof.
  induction w as [|a w IH]; simpl; intros k Hw Hk.
  - destruct rest as [|b rest]; simpl; [assumption|].
    destruct (cc_matches cc b); [|assumption].
    destruct (star cc rest _); [discriminate | assumption].
  - apply andb_true_iff in Hw. destruct Hw as [Ha Hw].
    rewrite Ha.
    specialize (IH (fun w' rest' => k (String a w') rest') Hw Hk).
    destruct (star cc (w ++ rest) _); [discriminate | contradiction].
Qed.

(** Whatever [exec] answers was reached through a way of matching. *)
Lemma exec_sound (r : regex) :
  forall pos s c (k : cont A) x,
    exec r pos s c k = Some x ->
    exists w rest c',
      s = w ++ rest /\ matches r pos w rest c c' /\ k w rest c' = Some x.
Proof.
  induction r as [| |l|cc|cc|n name r IH|r1 IH1 r2 IH2]; simpl; intros pos s c k x H.
  - destruct pos; [|discriminate].
    exists EmptyString, s, c. repeat split; auto. constructor.
  - exists EmptyString, s, c.
    destruct s as [|a [|b s]]; try discriminate.
    + repeat split; auto. constructor. auto.
    + destruct (Ascii.eqb_spec a LF) as [->|]; [|discriminate].
      repeat split; auto. constructor. auto.
  - destruct (strip_prefix l s) as [rest|] eqn:E; [|discriminate].
    apply strip_prefix_inv in E.
    exists l, rest, c. repeat split; auto. constructor.
  - apply star_sound in H. destruct H as (w & rest & -> & Hw & Hk).
    exists w, rest, c. repeat split; auto. now constructor.
  - destruct s as [|a s]; [discriminate|].
    destruct (cc_matches cc a) eqn:Ha; [|discriminate].
    apply star_sound in H. destruct H as (w & rest & -> & Hw & Hk).
    exists (String a w), rest, c. repeat split; auto.
    constructor; [discriminate|]. simpl. now rewrite Ha, Hw.
  - apply IH in H. destruct H as (w & rest & c' & -> & Hm & Hk).
    exists w, rest, ((n, w) :: c'). repeat split; auto. now constructor.
  - apply IH1 in H. destruct H as (w1 & s1 & c1 & -> & Hm1 & H).
    apply IH2 in H. destruct H as (w2 & s2 & c2 & -> & Hm2 & Hk).
    exists (w1 ++ w2), s2, c2. repeat split; auto.
    + now rewrite sapp_assoc.
    + econstructor; eassumption.
Qed.

(** If there is a way of matching that the continuation accepts,
    [exec] finds one (not always the same). *)
Lemma exec_complete (r : regex) pos w rest c c' :
  matches r pos w rest c c' ->
  forall k : cont A,
    k w rest c' <> None ->
    exec r pos (w ++ rest) c k <> None.
Proof.
  induction 1 as [rest c|pos rest c He|l pos rest c|cc pos w rest c Hw
                 |cc pos w rest c Hne Hw|n name r pos w rest c c' Hm IH
                 |r1 r2 pos w1 w2 rest c c1 c2 Hm1 IH1 Hm2 IH2];
    intros k Hk; simpl.
  - assumption.
  - destruct He as [->| ->]; simpl; assumption.
  - now rewrite strip_prefix_app.
  - now apply star_complete.
  - destruct w as [|a w]; [congruence|]. simpl in *.
    apply andb_true_iff in Hw. destruct Hw as [Ha Hw].
    rewrite Ha. now apply star_complete.
  - now apply IH.
  - rewrite sapp_assoc. apply IH1. now apply IH2.
Qed.

End EngineFacts.

Lemma re_match_sound (p : regex) (s : string) (m : Match) :
  re_match p s = Some m ->
  exists w rest c,
    s = w ++ rest /\ matches p 0 w rest [] c /\ m = mkMatch p s w c.
Proof.
  unfold re_match. intros H. apply exec_sound in H.
  destruct H as (w & rest & c & Hs & Hm & Hk).
  exists w, rest, c. repeat split; auto. congruence.
Qed.

Lemma re_match_complete (p : regex) (w rest : string) (c : captures) :
  matches p 0 w rest [] c -> re_match p (w ++ rest) <> None.
Proof.
  intros Hm. unfold re_match. eapply exec_complete; [eassumption|discriminate].
Qed.

(** Inversion of a way of matching, along the shape of the pattern. *)
Ltac inv_matches :=
  repeat match goal with
    | H : matches (Cat _ _) _ _ _ _ _ |- _ => inversion H; clear H; subst
    | H : matches (Group _ _ _) _ _ _ _ _ |- _ => inversion H; clear H; subst
    | H : matches (Lit _) _ _ _ _ _ |- _ => inversion H; clear H; subst
    | H : matches (Star _) _ _ _ _ _ |- _ => inversion H; clear H; subst
    | H : matches (Plus _) _ _ _ _ _ |- _ => inversion H; clear H; subst
    | H : matches Bol _ _ _ _ _ |- _ => inversion H; clear H; subst
    | H : matches Eol _ _ _ _ _ |- _ => inversion H; clear H; subst
    end.

Ltac norm_app :=
  repeat (rewrite ?sapp_assoc, ?sapp_nil_r; cbn [append]).

Section LineFacts.

Lemma substring_all (t : string) : substring 0 (String.length t) t = t.
Proof. induction t; simpl; congruence. Qed.

Lemma substring_skip (a t : string) :
  substring (String.length a) (String.length t) (a ++ t) = t.
Proof. induction a; simpl; [apply substring_all | assumption]. Qed.

Lemma endswith_app (a t : string) : endswith (a ++ t) t = true.
Proof.
  unfold endswith. rewrite slength_app.
  replace (String.length a + String.length t - String.length t)
    with (String.length a) by lia.
  rewrite substring_skip, String.eqb_refl.
  apply andb_true_iff. split; [|reflexivity].
  apply Nat.leb_le. lia.
Qed.

Lemma is_line_app_lf (a b : string) :
  is_line (a ++ String LF b) = true -> b = EmptyString.
Proof.
  induction a as [|x a IH]; cbn [append is_line]; intros H.
  - rewrite Ascii.eqb_refl in H. destruct b; [reflexivity | discriminate].
  - destruct (Ascii.eqb x LF).
    + destruct a; discriminate.
    + auto.
Qed.

Lemma is_line_app_crlf (s : string) :
  occurs LF s = false -> is_line (s ++ CRLF) = true.
Proof.
  induction s as [|a s IH]; simpl; [reflexivity|].
  intros H. apply orb_false_iff in H. destruct H as [Ha Hs].
  rewrite Ha. auto.
Qed.

Lemma all_dot_no_lf (w : string) : all_cc Dot w = true <-> occurs LF w = false.
Proof.
  induction w as [|a w IH]; simpl; [tauto|].
  rewrite andb_true_iff, orb_false_iff, IH, negb_true_iff. tauto.
Qed.

Lemma all_not_char (c : ascii) (w : string) :
  all_cc (NotChar c) w = true <-> occurs c w = false.
Proof.
  induction w as [|a w IH]; simpl; [tauto|].
  rewrite andb_true_iff, orb_false_iff, IH, negb_true_iff. tauto.
Qed.

End LineFacts.

(** ** Patterns registered through [handler] *)

Lemma handler_patterns (prefixes : list regex) (func : Callback) (p : regex) (h : Callback) :
  In (p, h) (handler prefixes func []) ->
  exists prefix, In prefix prefixes /\ p = registered prefix /\ h = func.
Proof.
  unfold handler. simpl. rewrite in_map_iff.
  intros (prefix & E & Hin). injection E as <- <-.
  exists prefix. auto.
Qed.

(** A match of a registered pattern is the match of the prefix, then
    the terminator, then the end of the input or one last line feed. *)
Lemma registered_match_inv (prefix : regex) (s : string) (m : Match) :
  re_match (registered prefix) s = Some m ->
  exists w e c,
    s = w ++ CRLF ++ e /\
    (e = EmptyString \/ e = str1 LF) /\
    matches prefix 0 w (CRLF ++ e) [] c /\
    m = mkMatch (registered prefix) s (w ++ CRLF) c.
Proof.
  intros H. apply re_match_sound in H.
  destruct H as (w & rest & c & -> & Hm & ->).
  unfold registered in Hm. inv_matches.
  match goal with H : matches prefix _ _ _ _ _ |- _ => rename H into Hp end.
  match goal with H : _ \/ _ |- _ => rename H into He end.
  rewrite sapp_nil_r in Hp.
  eexists _, rest, _. repeat split; try eassumption.
  all: now norm_app.
Qed.

Lemma registered_match_complete (prefix : regex) (w e : string) (c : captures) :
  matches prefix 0 w (CRLF ++ e) [] c ->
  e = EmptyString \/ e = str1 LF ->
  re_match (registered prefix) (w ++ CRLF ++ e) <> None.
Proof.
  intros Hp He.
  assert (Hm : matches (registered prefix) 0 (w ++ CRLF ++ EmptyString) e [] c).
  { unfold registered. econstructor.
    - norm_app. eassumption.
    - econstructor; constructor. assumption. }
  apply re_match_complete in Hm.
  rewrite !sapp_assoc in Hm. exact Hm.
Qed.

(** ** The keep-alive pattern *)

Lemma pong_match_inv (s : string) (m : Match) :
  re_match PONG_PATTERN s = Some m ->
  exists p e,
    s = "PING " ++ p ++ CRLF ++ e /\
    (e = EmptyString \/ e = str1 LF) /\
    occurs LF p = false /\
    m = mkMatch PONG_PATTERN s ("PING " ++ p ++ CRLF) [(1, p)].
Proof.
  intros H. apply registered_match_inv in H.
  destruct H as (w & e & c & -> & He & Hp & ->).
  unfold PONG_PREFIX in Hp. inv_matches.
  match goal with H : all_cc Dot ?p = true |- _ =>
    apply all_dot_no_lf in H; exists p, e end.
  repeat split; auto; now norm_app.
Qed.

Lemma pong_match_complete (p : string) :
  occurs LF p = false -> re_match PONG_PATTERN ("PING " ++ p ++ CRLF) <> None.
Proof.
  intros Hp. apply all_dot_no_lf in Hp.
  assert (Hm : matches PONG_PREFIX 0 (EmptyString ++ "PING " ++ p)
                 (CRLF ++ EmptyString) [] [(1, p)]).
  { unfold PONG_PREFIX. repeat econstructor. assumption. }
  apply registered_match_complete in Hm; [|now left].
  unfold PONG_PATTERN. revert Hm. now norm_app.
Qed.

(** A line that ends with the terminator and then [e], the end of the
    input or one line feed: [e] is empty. *)
Lemma line_end (x e : string) :
  is_line (x ++ CRLF ++ e) = true ->
  e = EmptyString \/ e = str1 LF ->
  e = EmptyString.
Proof.
  intros Hl [-> | ->]; [reflexivity|]. exfalso.
  replace (x ++ CRLF ++ str1 LF) with ((x ++ str1 CR) ++ String LF (str1 LF)) in Hl
    by now rewrite sapp_assoc.
  apply is_line_app_lf in Hl. discriminate.
Qed.

(** On a line, the payload is all of the text between the token and
    the terminator. *)
Lemma pong_match_line (p : string) :
  occurs LF p = false ->
  re_match PONG_PATTERN ("PING " ++ p ++ CRLF) =
  Some (mkMatch PONG_PATTERN ("PING " ++ p ++ CRLF) ("PING " ++ p ++ CRLF) [(1, p)]).
Proof.
  intros Hp.
  destruct (re_match PONG_PATTERN ("PING " ++ p ++ CRLF)) as [m|] eqn:E;
    [|now apply pong_match_complete in Hp].
  destruct (pong_match_inv _ E) as (p' & e & Hs & He & _ & ->).
  assert (Hl : is_line (("PING " ++ p') ++ CRLF ++ e) = true).
  { rewrite sapp_assoc, <- Hs, <- sapp_assoc.
    apply is_line_app_crlf. rewrite occurs_app, Hp. reflexivity. }
  apply line_end in Hl; [subst e | assumption].
  rewrite sapp_nil_r in Hs.
  apply sapp_inv_head in Hs. apply sapp_inv_tail in Hs. now subst.
Qed.

(** ** The chat-message patterns *)

Lemma message_match_inv (prefix s : string) (m : Match) :
  re_match (MESSAGE_PATTERN prefix) s = Some m ->
  exists u d ch t e,
    s = ":" ++ u ++ d ++ " PRIVMSG #" ++ ch ++ " :" ++ prefix ++ t ++ CRLF ++ e /\
    (e = EmptyString \/ e = str1 LF) /\
    u <> EmptyString /\ occurs "!" u = false /\
    occurs LF d = false /\
    ch <> EmptyString /\ occurs SP ch = false /\
    occurs LF t = false /\
    m = mkMatch (MESSAGE_PATTERN prefix) s
          (":" ++ u ++ d ++ " PRIVMSG #" ++ ch ++ " :" ++ prefix ++ t ++ CRLF)
          [(3, prefix ++ t); (2, ch); (1, u)].
Proof.
  intros H. apply registered_match_inv in H.
  destruct H as (w & e & c & -> & He & Hp & ->).
  unfold message_pattern in Hp. inv_matches.
  repeat match goal with
    | H : all_cc Dot _ = true |- _ => apply all_dot_no_lf in H
    | H : all_cc (NotChar _) _ = true |- _ => apply all_not_char in H
    end.
  match goal with
  | |- exists u d ch t e', (_ ++ _ ++ ?a ++ ?b ++ _ ++ ?c ++ _ ++ _ ++ ?f) ++ _ = _ /\ _ =>
      exists a, b, c, f, e
  end.
  repeat split; auto; now norm_app.
Qed.

Lemma message_match_complete (prefix u d ch t : string) :
  u <> EmptyString -> occurs "!" u = false ->
  occurs LF d = false ->
  ch <> EmptyString -> occurs SP ch = false ->
  occurs LF t = false ->
  re_match (MESSAGE_PATTERN prefix)
    (":" ++ u ++ d ++ " PRIVMSG #" ++ ch ++ " :" ++ prefix ++ t ++ CRLF) <> None.
Proof.
  intros Hu Hu' Hd Hc Hc' Ht.
  apply all_not_char in Hu', Hc'. apply all_dot_no_lf in Hd, Ht.
  assert (Hm : matches (message_pattern prefix) 0
                 (EmptyString ++ ":" ++ u ++ d ++ " PRIVMSG #" ++ ch ++ " :" ++
                  prefix ++ t)
                 (CRLF ++ EmptyString) []
                 [(3, prefix ++ t); (2, ch); (1, u)]).
  { unfold message_pattern.
    repeat (first [eassumption | econstructor]). }
  apply registered_match_complete in Hm; [|now left].
  unfold MESSAGE_PATTERN. revert Hm. now norm_app.
Qed.

(* ================================================================== *)
(** * Formatting *)

Lemma esc_cons (a : ascii) (s : string) :
  esc (String a s) =
  if Ascii.eqb a "{" then "{{" ++ esc s
  else if Ascii.eqb a "}" then "}}" ++ esc s
  else String a (esc s).
Proof.
  unfold esc. simpl.
  destruct (Ascii.eqb_spec a "{") as [->|Hne]; [reflexivity|].
  simpl. destruct (Ascii.eqb a "}"); reflexivity.
Qed.

(** Escaped text has no replacement field: formatting it gives the
    text back, whatever the arguments. *)
Lemma format_esc (s : string) (kw : kwargs) : format (esc s) kw = Return s.
Proof.
  unfold format. induction s as [|a s IH]; [reflexivity|].
  rewrite esc_cons.
  destruct (Ascii.eqb_spec a "{") as [->|Hl].
  - cbn. now rewrite IH.
  - destruct (Ascii.eqb_spec a "}") as [->|Hr].
    + cbn. now rewrite IH.
    + cbn [format_from].
      apply Ascii.eqb_neq in Hl, Hr. rewrite Hl, Hr, IH. reflexivity.
Qed.

Lemma format_PRIVMSG (kw : kwargs) (ch msg : option string) :
  getitem "channel" kw = Some ch ->
  getitem "msg" kw = Some msg ->
  format PRIVMSG kw = Return ("PRIVMSG #" ++ py_str ch ++ " :" ++ py_str msg ++ CRLF).
Proof.
  intros Hc Hm. unfold format, PRIVMSG. cbn. unfold field_value, str1. cbn.
  rewrite Hc, Hm. cbn. now rewrite ?sapp_assoc.
Qed.

Lemma format_PRIVMSG_kw (ch msg : string) :
  format PRIVMSG [("channel", Some ch); ("msg", Some msg)] = Return (privmsg ch msg).
Proof.
  exact (@format_PRIVMSG [("channel", Some ch); ("msg", Some msg)]
           (Some ch) (Some msg) eq_refl eq_refl).
Qed.

(* ================================================================== *)
(** * Traces *)

Lemma filter_map_app {A B : Type} (f : A -> option B) (l1 l2 : list A) :
  filter_map f (l1 ++ l2)%list = (filter_map f l1 ++ filter_map f l2)%list.
Proof.
  induction l1 as [|a l1 IH]; simpl; [reflexivity|].
  destruct (f a); simpl; congruence.
Qed.

Lemma writes_app (l1 l2 : list event) :
  writes (l1 ++ l2)%list = (writes l1 ++ writes l2)%list.
Proof. apply filter_map_app. Qed.

Lemma calls_recv data quiet : calls (recv data quiet) = [].
Proof. destruct quiet; reflexivity. Qed.

Lemma calls_log_incoming w msg : calls (log_incoming w msg) = [].
Proof. unfold log_incoming. destruct (re_match MSG_RE msg); reflexivity. Qed.

Lemma calls_reply config quiet w res : calls (reply config quiet w res) = [].
Proof.
  destruct res as [res|]; [|reflexivity]. unfold reply, send.
  destruct (re_match SEND_MSG_RE res), quiet; reflexivity.
Qed.

Lemma writes_recv data quiet : writes (recv data quiet) = [].
Proof. destruct quiet; reflexivity. Qed.

Lemma writes_log_incoming w msg : writes (log_incoming w msg) = [].
Proof. unfold log_incoming. destruct (re_match MSG_RE msg); reflexivity. Qed.

Lemma writes_reply config quiet w res :
  writes (reply config quiet w res) = match res with Some r => [r] | None => [] end.
Proof.
  destruct res as [res|]; [|reflexivity]. unfold reply, send.
  destruct (re_match SEND_MSG_RE res), quiet; reflexivity.
Qed.

Lemma calls_respond i h m config quiet w :
  calls (fst (respond i h m config quiet w)) = [i].
Proof.
  unfold respond.
  destruct (r <- h m;; call r config w) as [res|[n|n]|];
    rewrite ?format_PRIVMSG_kw; cbn [fst];
    repeat match goal with
      | |- context [calls (Call ?j :: ?l)] =>
          change (calls (Call j :: l)) with (j :: calls l)
      | |- context [calls (PrintExc ?e :: ?l)] =>
          change (calls (PrintExc e :: l)) with (calls l)
      end;
    rewrite ?calls_reply; reflexivity.
Qed.

Lemma calls_dispatch handlers config quiet w msg :
  forall i, (List.length (calls (fst (dispatch i handlers config quiet w msg))) <= 1)%nat.
Proof.
  induction handlers as [|[p h] handlers IH]; intros i; simpl.
  - destruct quiet; simpl; lia.
  - destruct (re_match p msg) as [m|]; [|apply IH].
    rewrite calls_respond. simpl. lia.
Qed.

(** The first rule whose pattern matches is the one [dispatch] runs. *)
Lemma dispatch_first handlers config quiet w msg :
  forall k i p h m,
    nth_error handlers i = Some (p, h) ->
    re_match p msg = Some m ->
    (forall j pj hj, (j < i)%nat -> nth_error handlers j = Some (pj, hj) ->
                     re_match pj msg = None) ->
    dispatch k handlers config quiet w msg = respond (k + i) h m config quiet w.
Proof.
  induction handlers as [|[p0 h0] handlers IH]; intros k i p h m Hn Hm Hprev.
  - destruct i; discriminate.
  - destruct i as [|i]; simpl in *.
    + injection Hn as -> ->. rewrite Hm. now rewrite Nat.add_0_r.
    + rewrite (Hprev 0%nat p0 h0) by (lia || reflexivity).
      rewrite (IH (S k) i p h m Hn Hm).
      * f_equal. lia.
      * intros j pj hj Hj Hnj. apply (Hprev (S j) pj hj); [lia | exact Hnj].
Qed.

Lemma iteration_calls handlers config quiet w msg :
  calls (fst (iteration handlers config quiet w msg)) =
  calls (fst (dispatch 0 handlers config quiet w msg)).
Proof.
  unfold iteration.
  destruct (dispatch 0 handlers config quiet w msg) as [ev f]. simpl.
  unfold calls. rewrite !filter_map_app.
  fold (calls (recv msg quiet)). fold (calls (log_incoming w msg)).
  now rewrite calls_recv, calls_log_incoming.
Qed.

Lemma iteration_writes handlers config quiet w msg :
  writes (fst (iteration handlers config quiet w msg)) =
  writes (fst (dispatch 0 handlers config quiet w msg)).
Proof.
  unfold iteration.
  destruct (dispatch 0 handlers config quiet w msg) as [ev f]. simpl.
  unfold writes. rewrite !filter_map_app.
  fold (writes (recv msg quiet)). fold (writes (log_incoming w msg)).
  now rewrite writes_recv, writes_log_incoming.
Qed.

(* ================================================================== *)
(** * The dispatch loop *)

(** C1 -- first match wins.  For every registry and every incoming line,
    at most one handler is invoked; and if the line matches the pattern
    of rule [i] and of no rule before it, the loop runs the pipeline of
    rule [i] on that match and invokes no other handler, whatever the
    later patterns do with the line. *)
Theorem first_match_wins (handlers : list rule) (config : Config) (quiet : bool)
  (w : World) (msg : string) :
  (List.length (calls (fst (iteration handlers config quiet w msg))) <= 1)%nat /\
  forall i pattern h m,
    nth_error handlers i = Some (pattern, h) ->
    re_match pattern msg = Some m ->
    (forall j pj hj, (j < i)%nat -> nth_error handlers j = Some (pj, hj) ->
                     re_match pj msg = None) ->
    dispatch 0 handlers config quiet w msg = respond i h m config quiet w /\
    calls (fst (iteration handlers config quiet w msg)) = [i].
Proof.
  split.
  - rewrite iteration_calls. apply calls_dispatch.
  - intros i pattern h m Hn Hm Hprev.
    pose proof (@dispatch_first handlers config quiet w msg 0 i pattern h m Hn Hm Hprev) as Hd.
    simpl in Hd. split; [exact Hd|].
    rewrite iteration_calls, Hd. apply calls_respond.
Qed.

(** Two rules whose patterns both match the line: the first one is run. *)
Lemma first_match_wins_witness :
  let shadowed : Callback := fun _ => Return (CmdResponse "second") in
  let handlers := handler [PONG_PREFIX] pong (handler [PONG_PREFIX] shadowed []) in
  let handlers' := handler [PONG_PREFIX] shadowed (handler [PONG_PREFIX] pong []) in
  let config := mkConfig "bot" "chan" "token" "id" in
  let now := mkDatetime 2020 1 1 0 0 0 0 in
  let w := mkWorld (fun _ _ => StatusData []) now now now in
  calls (fst (iteration handlers config true w ("PING :abc123" ++ CRLF))) = [0%nat] /\
  writes (fst (iteration handlers config true w ("PING :abc123" ++ CRLF))) = ["second"] /\
  writes (fst (iteration handlers' config true w ("PING :abc123" ++ CRLF))) =
    ["PONG :abc123" ++ CRLF].
Proof.
  intros shadowed handlers handlers' config now w.
  split; [|split; reflexivity].
  refine (proj2 (proj2 (first_match_wins handlers config true w ("PING :abc123" ++ CRLF))
            0%nat (registered PONG_PREFIX) shadowed _ eq_refl eq_refl _)).
  intros j pj hj Hj. lia.
Defined.

Lemma main_loop_continue handlers config quiet w msg incoming ev :
  iteration handlers config quiet w msg = (ev, Continue) ->
  main_loop handlers config quiet ((w, msg) :: incoming) =
  ((ev ++ fst (main_loop handlers config quiet incoming))%list,
   snd (main_loop handlers config quiet incoming)).
Proof.
  intros H. simpl. rewrite H.
  now destruct (main_loop handlers config quiet incoming).
Qed.

Lemma unhandled_line (ch n : string) :
  privmsg ch (unhandled_msg (Exc n)) =
  "PRIVMSG #" ++ ch ++ " :*** unhandled " ++ n ++ " -- see logs" ++ CRLF.
Proof. unfold privmsg, unhandled_msg. simpl. now rewrite !sapp_assoc. Qed.

(** C2 -- a failing handler is contained.  If the factory of the matched
    rule, or the call of the response it returned, raises an exception
    of kind [n], the iteration prints the traceback, writes the chat
    line ['PRIVMSG #<channel> :*** unhandled <n> -- see logs\r\n'] to the
    transport and nothing else, and the loop goes on with the lines
    that follow. *)
Theorem handler_error_contained (handlers : list rule) (config : Config) (quiet : bool)
  (w : World) (msg : string) (incoming : list (World * string))
  (i : nat) (pattern : regex) (h : Callback) (m : Match) (n : string) :
  nth_error handlers i = Some (pattern, h) ->
  re_match pattern msg = Some m ->
  (forall j pj hj, (j < i)%nat -> nth_error handlers j = Some (pj, hj) ->
                   re_match pj msg = None) ->
  (h m = Raise (Exc n) \/
   exists r, h m = Return r /\ call r config w = Raise (Exc n)) ->
  let fallback :=
    "PRIVMSG #" ++ channel config ++ " :*** unhandled " ++ n ++ " -- see logs" ++ CRLF in
  let ev :=
    (recv msg quiet ++ log_incoming w msg ++
     Call i :: PrintExc (Exc n) :: reply config quiet w (Some fallback))%list in
  iteration handlers config quiet w msg = (ev, Continue) /\
  writes ev = [fallback] /\
  In (PrintExc (Exc n)) ev /\
  main_loop handlers config quiet ((w, msg) :: incoming) =
    ((ev ++ fst (main_loop handlers config quiet incoming))%list,
     snd (main_loop handlers config quiet incoming)).
Proof.
  intros Hn Hm Hprev Hraise fallback ev.
  assert (Hb : (r <- h m;; call r config w) = Raise (Exc n)).
  { destruct Hraise as [-> | (r & -> & Hr)]; [reflexivity | exact Hr]. }
  assert (Hit : iteration handlers config quiet w msg = (ev, Continue)).
  { unfold iteration.
    rewrite (@dispatch_first handlers config quiet w msg 0 i pattern h m Hn Hm Hprev).
    unfold respond. rewrite Hb, format_PRIVMSG_kw, unhandled_line. reflexivity. }
  repeat split.
  - exact Hit.
  - unfold ev. rewrite !writes_app, writes_recv, writes_log_incoming.
    change (writes (Call i :: PrintExc (Exc n) :: reply config quiet w (Some fallback)))
      with (writes (reply config quiet w (Some fallback))).
    now rewrite writes_reply.
  - unfold ev. apply in_or_app. right. apply in_or_app. right.
    right. left. reflexivity.
  - now apply main_loop_continue.
Qed.

(** A rule whose response raises a KeyError, followed by a keep-alive. *)
Lemma handler_error_contained_witness :
  let failing : Callback :=
    fun m => Return (MessageResponse m "{nope}") in
  let handlers := handler [PONG_PREFIX] pong (handle_message ["!boom"] failing []) in
  let config := mkConfig "bot" "chan" "token" "id" in
  let now := mkDatetime 2020 1 1 0 0 0 0 in
  let w := mkWorld (fun _ _ => StatusData []) now now now in
  let msg := ":alice!alice@x PRIVMSG #chan :!boom" ++ CRLF in
  writes (fst (main_loop handlers config true [(w, msg); (w, "PING :abc123" ++ CRLF)])) =
  ["PRIVMSG #chan :*** unhandled KeyError -- see logs" ++ CRLF; "PONG :abc123" ++ CRLF].
Proof.
  intros failing handlers config now w msg.
  pose proof (@handler_error_contained handlers config true w msg
                [(w, "PING :abc123" ++ CRLF)] 0 (MESSAGE_PATTERN "!boom") failing
                _ "KeyError" eq_refl eq_refl
                (fun j pj hj Hj _ => match Nat.nlt_0_r j Hj with end)
                (or_intror (ex_intro _ _ (conj eq_refl eq_refl)))) as H.
  destruct H as (_ & _ & _ & ->). reflexivity.
Defined.

(* ================================================================== *)
(** * Bootstrap and the credential *)

Lemma respond_token i (h : Callback) m config token quiet w :
  (forall r, h m = Return r -> call r config w = call r (with_token config token) w) ->
  respond i h m config quiet w = respond i h m (with_token config token) quiet w.
Proof.
  intros H. unfold respond.
  destruct (h m) as [r| |]; simpl; [|reflexivity|reflexivity].
  rewrite <- (H r eq_refl). reflexivity.
Qed.

Lemma pong_token m config token w r :
  pong m = Return r -> call r config w = call r (with_token config token) w.
Proof.
  unfold pong. destruct (match_group m 1); simpl; intros H; try discriminate.
  injection H as <-. reflexivity.
Qed.

Lemma cmd_uptime_token m config token w r :
  cmd_uptime m = Return r -> call r config w = call r (with_token config token) w.
Proof. unfold cmd_uptime. intros H. injection H as <-. reflexivity. Qed.

Lemma msg_ping_token m config token w r :
  msg_ping m = Return r -> call r config w = call r (with_token config token) w.
Proof.
  unfold msg_ping.
  destruct (groups m) as [|g1 [|g2 [|[msg|] [|g4 l]]]]; try discriminate.
  destruct (partition SP msg) as [[before sp] rest].
  intros H. injection H as <-. reflexivity.
Qed.

(** The registry, rule by rule. *)
Lemma HANDLERS_eq :
  HANDLERS = [(PONG_PATTERN, pong);
              (MESSAGE_PATTERN "!uptime", cmd_uptime);
              (MESSAGE_PATTERN "PING", msg_ping)].
Proof. reflexivity. Qed.

Lemma iteration_token config token quiet w msg :
  iteration HANDLERS config quiet w msg =
  iteration HANDLERS (with_token config token) quiet w msg.
Proof.
  unfold iteration. rewrite HANDLERS_eq. cbn [dispatch].
  destruct (re_match PONG_PATTERN msg) as [m|].
  { rewrite (@respond_token 0 pong m config token quiet w); [reflexivity|].
    intros r. apply pong_token. }
  destruct (re_match (MESSAGE_PATTERN "!uptime") msg) as [m|].
  { rewrite (@respond_token 1 cmd_uptime m config token quiet w); [reflexivity|].
    intros r. apply cmd_uptime_token. }
  destruct (re_match (MESSAGE_PATTERN "PING") msg) as [m|].
  { rewrite (@respond_token 2 msg_ping m config token quiet w); [reflexivity|].
    intros r. apply msg_ping_token. }
  reflexivity.
Qed.

Lemma main_loop_token config token quiet incoming :
  main_loop HANDLERS config quiet incoming =
  main_loop HANDLERS (with_token config token) quiet incoming.
Proof.
  induction incoming as [|[w msg] incoming IH]; [reflexivity|].
  cbn [main_loop]. now rewrite <- iteration_token, IH.
Qed.

Lemma diagnostics_app (l1 l2 : list event) :
  diagnostics (l1 ++ l2)%list = (diagnostics l1 ++ diagnostics l2)%list.
Proof. apply filter_app. Qed.

(** C9 -- bootstrap and the credential.  Before the loop, [amain]
    writes the lines [PASS <token>], [NICK <name>] and [JOIN #<channel>]
    in this order; the PASS line is traced for no value of [quiet];
    and what a run prints on standard output and standard error is the
    same for two configurations that differ in the token only. *)
Theorem credential_not_echoed (config : Config) (token' : string) (quiet : bool)
  (incoming : list (World * string)) :
  fst (amain config quiet incoming) =
    (bootstrap config quiet ++ fst (main_loop HANDLERS config quiet incoming))%list /\
  writes (bootstrap config quiet) =
    ["PASS " ++ oauth_token config ++ CRLF;
     "NICK " ++ username config ++ CRLF;
     "JOIN #" ++ channel config ++ CRLF] /\
  diagnostics (bootstrap config quiet) =
    (if quiet then []
     else [Stderr ("< NICK " ++ username config ++ CRLF);
           Stderr ("< JOIN #" ++ channel config ++ CRLF)]) /\
  diagnostics (fst (amain config quiet incoming)) =
  diagnostics (fst (amain (with_token config token') quiet incoming)).
Proof.
  assert (Ha : forall c, fst (amain c quiet incoming) =
                 (bootstrap c quiet ++ fst (main_loop HANDLERS c quiet incoming))%list).
  { intros c. unfold amain, amain_with.
    now destruct (main_loop HANDLERS c quiet incoming). }
  repeat split.
  - apply Ha.
  - destruct quiet; reflexivity.
  - destruct quiet; reflexivity.
  - rewrite !Ha, !diagnostics_app, <- main_loop_token.
    assert (Hb : diagnostics (bootstrap config quiet) =
                 diagnostics (bootstrap (with_token config token') quiet))
      by (destruct quiet; reflexivity).
    now rewrite Hb.
Qed.

(* ================================================================== *)
(** * Uptime *)

Local Open Scope Z_scope.

(** [timedelta_new] keeps the duration and normalises its parts. *)
Lemma timedelta_new_total (d s us : Z) :
  total_microseconds (timedelta_new d s us) = (d * 86400 + s) * 1000000 + us.
Proof.
  unfold total_microseconds, timedelta_new. simpl.
  pose proof (Z.div_mod us 1000000 ltac:(lia)).
  pose proof (Z.div_mod (s + us / 1000000) 86400 ltac:(lia)).
  lia.
Qed.

Lemma timedelta_new_seconds (d s us : Z) :
  seconds (timedelta_new d s us) =
  (((d * 86400 + s) * 1000000 + us) / 1000000) mod 86400.
Proof.
  unfold timedelta_new. simpl.
  replace ((d * 86400 + s) * 1000000 + us) with (us + (d * 86400 + s) * 1000000) by lia.
  rewrite Z.div_add by lia.
  replace (us / 1000000 + (d * 86400 + s)) with ((s + us / 1000000) + d * 86400) by lia.
  now rewrite Z.mod_add by lia.
Qed.

(** What [.seconds] is: the whole seconds of the duration, modulo one
    day. *)
Lemma seconds_of_sub (a b : datetime) :
  seconds (datetime_sub a b) =
  (total_microseconds (datetime_sub a b) / 1000000) mod 86400.
Proof.
  unfold datetime_sub. now rewrite timedelta_new_total, timedelta_new_seconds.
Qed.

Lemma uptime_parts_units (elapsed : Z) :
  uptime_parts UNITS elapsed [] =
  (part (elapsed / 3600) "hours" ++
   part (elapsed mod 3600 / 60) "minutes" ++
   part (elapsed mod 60) "seconds")%list.
Proof.
  unfold UNITS, part. cbn [uptime_parts].
  change (60 * 60) with 3600.
  rewrite Z.div_1_r.
  replace (elapsed mod 3600 mod 60) with (elapsed mod 60)
    by (symmetry; apply Z.mod_mod_divide; now exists 60).
  destruct (elapsed / 3600 =? 0), (elapsed mod 3600 / 60 =? 0),
    (elapsed mod 60 =? 0); reflexivity.
Qed.

Lemma uptime_offline (config : Config) (w : World) :
  http_get w (status_url config) (client_id config) = StatusData [] ->
  call UptimeResponse config w =
  Return (Some (privmsg (channel config) "not currently streaming!")).
Proof.
  intros H. cbn [call UptimeResponse]. fold (status_url config). rewrite H.
  now rewrite format_PRIVMSG_kw.
Qed.

Lemma uptime_live (config : Config) (w : World) (start : datetime) (others : list datetime) :
  http_get w (status_url config) (client_id config) = StatusData (start :: others) ->
  call UptimeResponse config w =
  Return (Some (privmsg (channel config)
    ("streaming for: " ++
     String.concat ", " (uptime_parts UNITS (seconds (datetime_sub (utcnow w) start)) [])))).
Proof.
  intros H. cbn [call UptimeResponse]. fold (status_url config). rewrite H.
  now rewrite format_PRIVMSG_kw.
Qed.

(** C4 -- the uptime reply.  An empty stream list gives the reply
    ['not currently streaming!']; a first record gives ['streaming for: ']
    followed by the hours, minutes and seconds of the elapsed seconds,
    in this order, joined by [', '], a unit whose number is zero left
    out; 3661 seconds give ['1 hours, 1 minutes, 1 seconds'] and 60
    seconds give ['1 minutes']. *)
Theorem uptime_reply (config : Config) (w : World) :
  (http_get w (status_url config) (client_id config) = StatusData [] ->
   call UptimeResponse config w =
   Return (Some ("PRIVMSG #" ++ channel config ++ " :not currently streaming!" ++ CRLF)%string))
  /\
  (forall start others,
     http_get w (status_url config) (client_id config) = StatusData (start :: others) ->
     let elapsed := seconds (datetime_sub (utcnow w) start) in
     call UptimeResponse config w =
     Return (Some ("PRIVMSG #" ++ channel config ++ " :streaming for: " ++
                   String.concat ", "
                     (part (elapsed / 3600) "hours" ++
                      part (elapsed mod 3600 / 60) "minutes" ++
                      part (elapsed mod 60) "seconds") ++ CRLF)%string)
     /\
     (total_microseconds (datetime_sub (utcnow w) start) = 3661 * 1000000 ->
      call UptimeResponse config w =
      Return (Some ("PRIVMSG #" ++ channel config ++
                    " :streaming for: 1 hours, 1 minutes, 1 seconds" ++ CRLF)%string))
     /\
     (total_microseconds (datetime_sub (utcnow w) start) = 60 * 1000000 ->
      call UptimeResponse config w =
      Return (Some ("PRIVMSG #" ++ channel config ++
                    " :streaming for: 1 minutes" ++ CRLF)%string))).
Proof.
  split.
  - intros H. rewrite (uptime_offline _ _ H). reflexivity.
  - intros start others H elapsed.
    rewrite (uptime_live _ _ H). fold elapsed.
    assert (He : elapsed =
                 (total_microseconds (datetime_sub (utcnow w) start) / 1000000) mod 86400)
      by apply seconds_of_sub.
    repeat split.
    + rewrite uptime_parts_units. unfold privmsg.
      now rewrite !sapp_assoc.
    + intros Ht. rewrite Ht in He. change (3661 * 1000000 / 1000000 mod 86400) with 3661 in He.
      rewrite He. reflexivity.
    + intros Ht. rewrite Ht in He. change (60 * 1000000 / 1000000 mod 86400) with 60 in He.
      rewrite He. reflexivity.
Qed.

Local Close Scope Z_scope.

(** A stream that started 3661 seconds ago, and one that started a
    minute ago, asked through the chat command. *)
Lemma uptime_reply_witness :
  let config := mkConfig "bot" "chan" "token" "id" in
  let start := mkDatetime 2020 2 29 23 30 0 0 in
  let w := mkWorld (fun _ _ => StatusData [start])
             (mkDatetime 2020 3 1 0 31 1 0) start start in
  let w' := mkWorld (fun _ _ => StatusData [start])
              (mkDatetime 2020 2 29 23 31 0 0) start start in
  let w'' := mkWorld (fun _ _ => StatusData []) start start start in
  let query := ":alice!alice@x PRIVMSG #chan :!uptime" ++ CRLF in
  call UptimeResponse config w =
    Return (Some ("PRIVMSG #chan :streaming for: 1 hours, 1 minutes, 1 seconds" ++ CRLF)) /\
  call UptimeResponse config w' =
    Return (Some ("PRIVMSG #chan :streaming for: 1 minutes" ++ CRLF)) /\
  call UptimeResponse config w'' =
    Return (Some ("PRIVMSG #chan :not currently streaming!" ++ CRLF)) /\
  writes (fst (iteration HANDLERS config true w query)) =
    ["PRIVMSG #chan :streaming for: 1 hours, 1 minutes, 1 seconds" ++ CRLF].
Proof.
  intros config start w w' w'' query.
  split; [|split; [|split]].
  - exact (proj1 (proj2 (proj2 (uptime_reply config w) start [] eq_refl)) eq_refl).
  - exact (proj2 (proj2 (proj2 (uptime_reply config w') start [] eq_refl)) eq_refl).
  - exact (proj1 (uptime_reply config w'') eq_refl).
  - reflexivity.
Defined.

Local Open Scope Z_scope.

(** The seconds reported for a stream that started [d] days and [s]
    seconds ago are [s]: the days are not counted. *)
Lemma uptime_elapsed_mod_day (now start : datetime) (d s : Z) :
  0 <= s < 86400 ->
  total_microseconds (datetime_sub now start) = (d * 86400 + s) * 1000000 ->
  seconds (datetime_sub now start) = s.
Proof.
  intros Hs Ht. rewrite seconds_of_sub, Ht.
  rewrite Z.div_mul by lia.
  replace (d * 86400 + s) with (s + d * 86400) by lia.
  rewrite Z.mod_add by lia. now apply Z.mod_small.
Qed.

(** C3 -- a stream that started 25 hours before now.  The difference
    of the two datetimes is 90000 seconds, its [.seconds] is 3600, and
    the reply says one hour. *)
Theorem uptime_drops_whole_days :
  let config := mkConfig "bot" "chan" "token" "id" in
  let start := mkDatetime 2020 1 1 0 0 0 0 in
  let now := mkDatetime 2020 1 2 1 0 0 0 in
  let w := mkWorld (fun _ _ => StatusData [start]) now now now in
  total_microseconds (datetime_sub now start) = 25 * 3600 * 1000000 /\
  seconds (datetime_sub now start) = 3600 /\
  call UptimeResponse config w =
    Return (Some ("PRIVMSG #chan :streaming for: 1 hours" ++ CRLF)%string) /\
  writes (fst (iteration HANDLERS config true w
                 (":alice!alice@x PRIVMSG #chan :!uptime" ++ CRLF)%string)) =
    ["PRIVMSG #chan :streaming for: 1 hours" ++ CRLF]%string.
Proof. repeat split. Qed.

Local Close Scope Z_scope.

(* ================================================================== *)
(** * The chat-level echo *)

Lemma format_PONG_esc (rest : string) (kw : kwargs) :
  format ("PONG " ++ esc rest) kw = Return ("PONG " ++ rest).
Proof.
  pose proof (format_esc rest kw) as H. unfold format in *.
  cbn -[esc]. now rewrite H.
Qed.

Lemma ping_response (m : Match) (ch : option string) (rest : string)
  (config : Config) (w : World) :
  getitem "channel" (groupdict m) = Some ch ->
  call (MessageResponse m ("PONG " ++ esc rest)) config w =
  Return (Some (privmsg (py_str ch) ("PONG " ++ rest))).
Proof.
  intros Hc. cbn [call MessageResponse].
  rewrite format_PONG_esc. cbn [bind].
  rewrite (@format_PRIVMSG _ ch (Some ("PONG " ++ rest))); [reflexivity| |reflexivity].
  exact Hc.
Qed.

(** What [msg_ping] makes of a match of its rule. *)
Lemma msg_ping_match (s g0 u ch body : string) :
  let m := mkMatch (MESSAGE_PATTERN "PING") s g0 [(3, body); (2, ch); (1, u)]%nat in
  msg_ping m = Return (MessageResponse m ("PONG " ++ esc (snd (partition SP body)))).
Proof.
  intros m. unfold msg_ping. cbn -[partition esc].
  now destruct (partition SP body) as [[before sp] after].
Qed.

Lemma msg_ping_call (s g0 u ch body rest : string) (config : Config) (w : World) :
  let m := mkMatch (MESSAGE_PATTERN "PING") s g0 [(3, body); (2, ch); (1, u)]%nat in
  call (MessageResponse m ("PONG " ++ esc rest)) config w =
  Return (Some ("PRIVMSG #" ++ ch ++ " :PONG " ++ rest ++ CRLF)).
Proof.
  intros m.
  rewrite (@ping_response m (Some ch) rest config w eq_refl).
  unfold privmsg. simpl. now rewrite ?sapp_assoc.
Qed.

(* ================================================================== *)
(** * The protocol keep-alive *)

Lemma is_line_crlf_inv (x : string) :
  is_line (x ++ CRLF) = true -> occurs LF x = false.
Proof.
  induction x as [|a x IH]; cbn [append is_line occurs]; intros H; [reflexivity|].
  destruct (Ascii.eqb a LF).
  - destruct x; discriminate.
  - simpl. auto.
Qed.

Lemma writes_respond_return i (h : Callback) m config quiet w r res :
  h m = Return r -> call r config w = Return res ->
  respond i h m config quiet w = (Call i :: reply config quiet w res, Continue).
Proof. intros Hh Hc. unfold respond. rewrite Hh. simpl. now rewrite Hc. Qed.

(** C6 -- the protocol keep-alive.  For every payload, the incoming line
    ['PING <payload>\r\n'] makes the loop write ['PONG <payload>\r\n'] and
    nothing else, for every configuration and every state of the
    world; the factory returns at once a response that holds that
    literal line and resolves to it without looking at anything. *)
Theorem keepalive_echo (payload : string) :
  is_line ("PING " ++ payload ++ CRLF) = true ->
  (exists m,
     re_match PONG_PATTERN ("PING " ++ payload ++ CRLF) = Some m /\
     pong m = Return (CmdResponse ("PONG " ++ payload ++ CRLF))) /\
  (forall config w,
     call (CmdResponse ("PONG " ++ payload ++ CRLF)) config w =
     Return (Some ("PONG " ++ payload ++ CRLF))) /\
  (forall config quiet w,
     writes (fst (iteration HANDLERS config quiet w ("PING " ++ payload ++ CRLF))) =
       ["PONG " ++ payload ++ CRLF] /\
     calls (fst (iteration HANDLERS config quiet w ("PING " ++ payload ++ CRLF))) =
       [0%nat] /\
     snd (iteration HANDLERS config quiet w ("PING " ++ payload ++ CRLF)) = Continue).
Proof.
  intros Hl.
  assert (Hp : occurs LF payload = false).
  { change ("PING " ++ payload ++ CRLF) with ("PING " ++ (payload ++ CRLF)) in Hl.
    rewrite <- sapp_assoc in Hl. apply is_line_crlf_inv in Hl.
    rewrite occurs_app in Hl. now apply orb_false_iff in Hl. }
  pose proof (pong_match_line _ Hp) as Hm.
  split; [|split].
  - eexists. split; [exact Hm | reflexivity].
  - reflexivity.
  - intros config quiet w.
    assert (Hd : dispatch 0 HANDLERS config quiet w ("PING " ++ payload ++ CRLF) =
                 (Call 0 :: reply config quiet w (Some ("PONG " ++ payload ++ CRLF)),
                  Continue)).
    { rewrite HANDLERS_eq. cbn [dispatch]. rewrite Hm.
      now apply writes_respond_return with (r := CmdResponse ("PONG " ++ payload ++ CRLF)). }
    repeat split.
    + rewrite iteration_writes, Hd. cbn [fst].
      change (writes (Call 0 :: ?l)) with (writes l).
      now rewrite writes_reply.
    + rewrite iteration_calls, Hd. cbn [fst].
      change (calls (Call 0 :: ?l)) with (0%nat :: calls l).
      now rewrite calls_reply.
    + unfold iteration. now rewrite Hd.
Qed.

(** The line [PING :abc123]. *)
Lemma keepalive_echo_witness :
  let config := mkConfig "bot" "chan" "token" "id" in
  let now := mkDatetime 2020 1 1 0 0 0 0 in
  let w := mkWorld (fun _ _ => StatusFails (Exc "ClientError")) now now now in
  is_line ("PING :abc123" ++ CRLF) = true /\
  writes (fst (iteration HANDLERS config false w ("PING :abc123" ++ CRLF))) =
  ["PONG :abc123" ++ CRLF].
Proof.
  intros config now w. split; [reflexivity|].
  exact (proj1 (proj2 (proj2 (keepalive_echo ":abc123" eq_refl)) config false w)).
Defined.

(* ================================================================== *)
(** * Anchoring of the registered patterns *)

(** A match of a pattern registered for any prefix. *)
Lemma registered_anchored (prefix : regex) (s : string) (m : Match) :
  re_match (registered prefix) s = Some m ->
  endswith (m_group0 m) CRLF = true /\
  (s = m_group0 m \/ s = m_group0 m ++ str1 LF) /\
  (is_line s = true -> m_group0 m = s).
Proof.
  intros H. apply registered_match_inv in H.
  destruct H as (w & e & c & -> & He & _ & ->). cbn [m_group0].
  split; [apply endswith_app|]. split.
  - destruct He as [-> | ->]; [left | right]; now rewrite ?sapp_nil_r, ?sapp_assoc.
  - intros Hl. apply line_end in Hl; [|assumption]. subst e.
    now rewrite sapp_nil_r.
Qed.

(** So is every match of a pattern that [handler] registers. *)
Lemma handler_registers_anchored (prefixes : list regex) (func : Callback)
  (p : regex) (h : Callback) (s : string) (m : Match) :
  In (p, h) (handler prefixes func []) ->
  re_match p s = Some m ->
  endswith (m_group0 m) CRLF = true /\
  (s = m_group0 m \/ s = m_group0 m ++ str1 LF) /\
  (is_line s = true -> m_group0 m = s).
Proof.
  intros Hin Hm. apply handler_patterns in Hin.
  destruct Hin as (prefix & _ & -> & _). exact (registered_anchored _ _ Hm).
Qed.





(* ================================================================== *)
(** * The lines the loop sends *)

Lemma in_writes (res : string) (t : list event) :
  In (Write res) t <-> In res (writes t).
Proof.
  induction t as [|e t IH]; simpl; [tauto|].
  destruct e; simpl; rewrite <- IH; split;
    try (intros [H|H]; [discriminate H || (injection H as ->; auto) | auto]);
    try (intros [H|H]; [subst; auto | auto]); auto.
Qed.

(** The recogniser of sent lines accepts a chat line for a channel
    name that is not empty and has no space. *)
Lemma send_msg_recognised (ch text : string) :
  ch <> EmptyString -> occurs SP ch = false -> starts_visible text = true ->
  re_match SEND_MSG_RE (privmsg ch text) <> None.
Proof.
  intros Hc Hsp Ht.
  destruct text as [|a text]; [discriminate|]. simpl in Ht.
  apply all_not_char in Hsp.
  assert (Hm : matches SEND_MSG_RE 0
                 (EmptyString ++ "PRIVMSG #" ++ ch ++ " :" ++ str1 a)
                 (text ++ CRLF) [] [(1%nat, str1 a)]).
  { unfold SEND_MSG_RE. repeat (first [eassumption | econstructor]).
    - discriminate.
    - simpl. now rewrite Ht. }
  apply re_match_complete in Hm. unfold privmsg.
  revert Hm. now norm_app.
Qed.

(** It does not accept a keep-alive reply. *)
Lemma send_msg_not_pong (rest : string) : re_match SEND_MSG_RE ("PONG " ++ rest) = None.
Proof. reflexivity. Qed.

(** What one iteration over the registry can write. *)
Lemma dispatch_writes_cases (config : Config) (quiet : bool) (w : World) (msg : string) :
  let ws := writes (fst (dispatch 0 HANDLERS config quiet w msg)) in
  ws = [] \/
  (exists payload, ws = ["PONG " ++ payload ++ CRLF]) \/
  (exists ch text,
     ws = [privmsg ch text] /\ starts_visible text = true /\
     (ch = channel config \/ (ch <> EmptyString /\ occurs SP ch = false))).
Proof.
  intros ws. unfold ws. clear ws. rewrite HANDLERS_eq. cbn [dispatch].
  destruct (re_match PONG_PATTERN msg) as [m|] eqn:E0.
  { right. left.
    destruct (pong_match_inv _ E0) as (p & e & _ & _ & _ & ->).
    exists p.
    rewrite (@writes_respond_return 0 pong
               (mkMatch PONG_PATTERN msg ("PING " ++ p ++ CRLF) [(1%nat, p)])
               config quiet w
               (CmdResponse ("PONG " ++ p ++ CRLF)) (Some ("PONG " ++ p ++ CRLF))
               eq_refl eq_refl).
    cbn [fst]. change (writes (Call 0 :: ?l)) with (writes l).
    now rewrite writes_reply. }
  destruct (re_match (MESSAGE_PATTERN "!uptime") msg) as [m|] eqn:E1.
  { unfold respond, cmd_uptime. cbn [bind call UptimeResponse].
    destruct (http_get w _ (client_id config)) as [[n|n]|[|start others]].
    - right. right. rewrite format_PRIVMSG_kw. cbn [fst].
      exists (channel config), (unhandled_msg (Exc n)).
      change (writes (Call 1 :: PrintExc (Exc n) :: ?l)) with (writes l).
      rewrite writes_reply. auto.
    - left. reflexivity.
    - right. right. rewrite format_PRIVMSG_kw. cbn [bind fst].
      exists (channel config), "not currently streaming!".
      change (writes (Call 1 :: ?l)) with (writes l).
      rewrite writes_reply. auto.
    - right. right. rewrite format_PRIVMSG_kw. cbn [bind fst].
      eexists (channel config), _.
      change (writes (Call 1 :: ?l)) with (writes l).
      rewrite writes_reply. auto. }
  destruct (re_match (MESSAGE_PATTERN "PING") msg) as [m|] eqn:E2.
  { right. right.
    destruct (message_match_inv _ _ E2)
      as (u & d & ch & t & e & _ & _ & _ & _ & _ & Hc & Hsp & _ & ->).
    exists ch, ("PONG " ++ snd (partition SP ("PING" ++ t))).
    rewrite (@writes_respond_return 2 msg_ping _ config quiet w _ _
               (msg_ping_match _ _ _ _ _)
               (msg_ping_call _ _ _ _ _ _ config w)).
    cbn [fst]. change (writes (Call 2 :: ?l)) with (writes l).
    rewrite writes_reply. split; [|auto].
    unfold privmsg. now rewrite ?sapp_assoc. }
  left. destruct quiet; reflexivity.
Qed.

Lemma iteration_write_in (config : Config) (quiet : bool) (w : World) (msg res : string) :
  In (Write res) (fst (iteration HANDLERS config quiet w msg)) <->
  In res (writes (fst (dispatch 0 HANDLERS config quiet w msg))).
Proof. now rewrite in_writes, iteration_writes. Qed.

Lemma privmsg_endswith (ch text : string) : endswith (privmsg ch text) CRLF = true.
Proof.
  unfold privmsg.
  replace ("PRIVMSG #" ++ ch ++ " :" ++ text ++ CRLF)
    with (("PRIVMSG #" ++ ch ++ " :" ++ text) ++ CRLF)
    by (simpl; now rewrite ?sapp_assoc).
  apply endswith_app.
Qed.

(** C8, as stated, fails -- the reply to the keep-alive [PING :abc123]
    is sent, and the recogniser of sent lines does not accept it. *)
Lemma sent_pong_not_recognised :
  ~ (forall config quiet w msg res,
       In (Write res) (fst (iteration HANDLERS config quiet w msg)) ->
       re_match SEND_MSG_RE res <> None /\ endswith res CRLF = true).
Proof.
  intros H.
  pose (now := mkDatetime 2020 1 1 0 0 0 0).
  destruct (H (mkConfig "bot" "chan" "token" "id") true
              (mkWorld (fun _ _ => StatusData []) now now now)
              ("PING :abc123" ++ CRLF) ("PONG :abc123" ++ CRLF)
              (or_intror (or_introl eq_refl))) as [Hre _].
  apply Hre. reflexivity.
Qed.

(** C8, amended -- every line the loop sends ends with ['\r\n'].  It is
    either the reply to a keep-alive, ['PONG <payload>\r\n'], which the
    recogniser of sent lines does not accept and which is sent without
    a log entry, or a chat line ['PRIVMSG #<channel> :<text>\r\n'], which
    the recogniser accepts when the configured channel name is not
    empty and has no space. *)
Theorem sent_line_shape (config : Config) (quiet : bool) (w : World) (msg res : string) :
  In (Write res) (fst (iteration HANDLERS config quiet w msg)) ->
  endswith res CRLF = true /\
  ((exists payload,
      res = "PONG " ++ payload ++ CRLF /\ re_match SEND_MSG_RE res = None) \/
   (exists ch text,
      res = "PRIVMSG #" ++ ch ++ " :" ++ text ++ CRLF /\
      (channel config <> EmptyString -> occurs SP (channel config) = false ->
       re_match SEND_MSG_RE res <> None))).
Proof.
  intros Hin. apply iteration_write_in in Hin.
  destruct (dispatch_writes_cases config quiet w msg)
    as [H | [(payload & H) | (ch & text & H & Hv & Hch)]];
    rewrite H in Hin; simpl in Hin.
  - contradiction.
  - destruct Hin as [<- | []]. split.
    + exact (endswith_app ("PONG " ++ payload) CRLF).
    + left. exists payload. split; [reflexivity | apply send_msg_not_pong].
  - destruct Hin as [<- | []]. split; [apply privmsg_endswith|].
    right. exists ch, text. split; [reflexivity|].
    intros Hne Hsp. apply send_msg_recognised; [| |exact Hv].
    + destruct Hch as [-> | [Hc _]]; assumption.
    + destruct Hch as [-> | [_ Hc]]; assumption.
Qed.

Lemma sent_line_shape_witness :
  let config := mkConfig "bot" "chan" "token" "id" in
  let now := mkDatetime 2020 1 1 0 0 0 0 in
  let w := mkWorld (fun _ _ => StatusFails (Exc "ClientError")) now now now in
  let msg := ":alice!alice@x PRIVMSG #chan :!uptime" ++ CRLF in
  let res := "PRIVMSG #chan :*** unhandled ClientError -- see logs" ++ CRLF in
  In (Write res) (fst (iteration HANDLERS config true w msg)) /\
  endswith res CRLF = true /\
  re_match SEND_MSG_RE res <> None.
Proof.
  intros config now w msg res.
  assert (Hin : In (Write res) (fst (iteration HANDLERS config true w msg))).
  { apply iteration_write_in. left. reflexivity. }
  split; [exact Hin|].
  destruct (@sent_line_shape config true w msg res Hin) as [He Hs].
  split; [exact He|]. discriminate.
Defined.

(* ================================================================== *)
(** * Chat lines and what the chat patterns capture *)

Lemma contains_app (sub a b : string) : contains sub (a ++ sub ++ b) = true.
Proof.
  induction a as [|x a IH].
  - cbn [append]. destruct (sub ++ b) eqn:E; cbn [contains];
      unfold startswith; rewrite <- E, strip_prefix_app; reflexivity.
  - cbn [append contains]. rewrite IH. apply orb_true_r.
Qed.

Lemma contains_occurs (c : ascii) (sub s : string) :
  occurs c s = false -> contains (String c sub) s = false.
Proof.
  induction s as [|a s IH]; intros H.
  - reflexivity.
  - simpl in H. apply orb_false_iff in H. destruct H as [Ha Hs].
    cbn [contains]. rewrite (IH Hs), orb_false_r.
    unfold startswith. simpl.
    rewrite Ascii.eqb_sym, Ha. reflexivity.
Qed.

Lemma partition_no_sep (c : ascii) (s : string) :
  occurs c s = false -> partition c s = (s, EmptyString, EmptyString).
Proof.
  induction s as [|a s IH]; simpl; intros H; [reflexivity|].
  apply orb_false_iff in H. destruct H as [Ha Hs].
  now rewrite Ha, (IH Hs).
Qed.

(** Two ways of cutting a text at an occurrence of [c], the first one
    at its first occurrence. *)
Lemma split_first (c : ascii) (a : string) :
  forall b a' b',
    occurs c a = false ->
    a ++ String c b = a' ++ String c b' ->
    (a' = a /\ b' = b) \/ (exists z, a' = a ++ String c z /\ b = z ++ String c b').
Proof.
  induction a as [|y a IH]; intros b a' b' Ha H.
  - destruct a' as [|x a']; simpl in H.
    + injection H as <-. now left.
    + injection H as <- ->. right. now exists a'.
  - simpl in Ha. apply orb_false_iff in Ha. destruct Ha as [Hy Ha].
    destruct a' as [|x a']; simpl in H.
    + injection H as -> _. rewrite Ascii.eqb_refl in Hy. discriminate.
    + injection H as <- H.
      destruct (IH _ _ _ Ha H) as [[-> ->] | (z & -> & ->)].
      * now left.
      * right. now exists z.
Qed.

(** In a chat line whose body does not contain [' PRIVMSG #'], the
    parts a chat pattern can take for the channel and the message are
    the channel and the body. *)
Lemma chat_line_unique (src chan body prefix u d ch t : string) :
  occurs SP src = false -> occurs SP chan = false ->
  contains " PRIVMSG #" body = false ->
  occurs SP ch = false ->
  chat_line src chan body =
    ":" ++ u ++ d ++ " PRIVMSG #" ++ ch ++ " :" ++ prefix ++ t ++ CRLF ->
  ch = chan /\ prefix ++ t = body.
Proof.
  intros Hsrc Hchan Hbody Hch H. unfold chat_line in H.
  cbn [append] in H. injection H as H.
  rewrite <- (sapp_assoc u d) in H.
  destruct (split_first SP src _ _ _ Hsrc H) as [[Hud H1] | (z & Hud & H1)].
  - injection H1 as H1.
    destruct (split_first SP chan _ _ _ Hchan (eq_sym H1)) as [[-> H2] | (z & -> & _)].
    + split; [reflexivity|]. injection H2 as H2.
      rewrite <- sapp_assoc in H2. now apply sapp_inv_tail in H2.
    + rewrite occurs_app in Hch. simpl in Hch.
      rewrite orb_true_r in Hch. discriminate.
  - exfalso.
    destruct (split_first SP "PRIVMSG" _ z _ eq_refl H1) as [[-> H2] | (z1 & -> & H2)];
      [discriminate H2|].
    assert (Hc : occurs SP ("#" ++ chan) = false) by exact Hchan.
    destruct (split_first SP ("#" ++ chan) _ z1 _ Hc H2) as [[-> H3] | (z2 & -> & H3)];
      [discriminate H3|].
    destruct z2 as [|x z3]; [discriminate H3|].
    injection H3 as _ H3.
    change (z3 ++ String SP _)
      with (z3 ++ " PRIVMSG #" ++ (ch ++ " :" ++ prefix ++ t ++ CRLF)) in H3.
    replace (z3 ++ " PRIVMSG #" ++ (ch ++ " :" ++ prefix ++ t ++ CRLF))
      with ((z3 ++ " PRIVMSG #" ++ (ch ++ " :" ++ prefix ++ t)) ++ CRLF) in H3
      by (rewrite ?sapp_assoc; cbn [append]; now rewrite ?sapp_assoc).
    apply sapp_inv_tail in H3. subst body.
    now rewrite contains_app in Hbody.
Qed.

Lemma chat_parts_ok_inv (src chan body : string) :
  chat_parts_ok src chan body = true ->
  (exists a src', src = String a src' /\ a <> "!"%char) /\
  occurs SP src = false /\ occurs LF src = false /\
  chan <> EmptyString /\ occurs SP chan = false /\ occurs LF chan = false /\
  occurs LF body = false.
Proof.
  unfold chat_parts_ok. rewrite !andb_true_iff, !negb_true_iff.
  intros ((((((H1 & H2) & H3) & H4) & H5) & H6) & H7).
  repeat split; auto.
  - destruct src as [|a src']; [discriminate|].
    exists a, src'. split; [reflexivity|].
    apply negb_true_iff in H1. now apply Ascii.eqb_neq.
  - now apply String.eqb_neq.
Qed.

Lemma chat_line_is_line (src chan body : string) :
  chat_parts_ok src chan body = true -> is_line (chat_line src chan body) = true.
Proof.
  intros H. apply chat_parts_ok_inv in H.
  destruct H as (_ & _ & Hs & _ & _ & Hc & Hb).
  unfold chat_line. rewrite <- !sapp_assoc.
  apply is_line_app_crlf.
  rewrite !occurs_app, Hs, Hc, Hb. reflexivity.
Qed.

(** A chat pattern matches every chat line whose body starts with its
    prefix. *)
Lemma chat_pattern_fires (prefix src chan tail : string) :
  chat_parts_ok src chan (prefix ++ tail) = true ->
  re_match (MESSAGE_PATTERN prefix) (chat_line src chan (prefix ++ tail)) <> None.
Proof.
  intros H. apply chat_parts_ok_inv in H.
  destruct H as ((a & src' & -> & Ha) & _ & Hs & Hc & Hcs & _ & Hb).
  rewrite occurs_app in Hb. apply orb_false_iff in Hb. destruct Hb as [_ Ht].
  simpl in Hs. apply orb_false_iff in Hs. destruct Hs as [_ Hs].
  assert (Hu : occurs "!" (str1 a) = false).
  { simpl. apply Ascii.eqb_neq in Ha. now rewrite Ha. }
  pose proof (@message_match_complete prefix (str1 a) src' chan tail
                ltac:(discriminate) Hu Hs Hc Hcs Ht) as Hm.
  unfold chat_line. cbn [append str1] in Hm |- *.
  now rewrite sapp_assoc.
Qed.

(** On a chat line whose body does not contain [' PRIVMSG #'], a match
    of a chat pattern captures the channel and the body. *)
Lemma chat_pattern_captures (prefix src chan body : string) (m : Match) :
  chat_parts_ok src chan body = true ->
  contains " PRIVMSG #" body = false ->
  re_match (MESSAGE_PATTERN prefix) (chat_line src chan body) = Some m ->
  exists u g0 t,
    body = prefix ++ t /\
    m = mkMatch (MESSAGE_PATTERN prefix) (chat_line src chan body) g0
          [(3, body); (2, chan); (1, u)]%nat.
Proof.
  intros Hok Hbody Hm.
  pose proof (chat_line_is_line _ _ _ Hok) as Hl.
  apply chat_parts_ok_inv in Hok.
  destruct Hok as (_ & Hsrc & _ & _ & Hchan & _ & _).
  destruct (message_match_inv _ _ Hm)
    as (u & d & ch & t & e & Hs & He & _ & _ & _ & _ & Hch & _ & ->).
  assert (e = EmptyString) as ->.
  { rewrite Hs in Hl.
    apply (line_end (":" ++ u ++ d ++ " PRIVMSG #" ++ ch ++ " :" ++ prefix ++ t));
      [|exact He].
    revert Hl. norm_app. auto. }
  rewrite !sapp_nil_r in Hs.
  destruct (@chat_line_unique _ _ _ _ _ _ _ _ Hsrc Hchan Hbody Hch Hs) as [-> <-].
  eexists u, _, t. split; reflexivity.
Qed.

(** On such a line the loop runs the echo rule. *)
Lemma dispatch_chat_ping (config : Config) (quiet : bool) (w : World)
  (src chan tail : string) :
  chat_parts_ok src chan ("PING" ++ tail) = true ->
  contains " PRIVMSG #" ("PING" ++ tail) = false ->
  dispatch 0 HANDLERS config quiet w (chat_line src chan ("PING" ++ tail)) =
  (Call 2 :: reply config quiet w
     (Some ("PRIVMSG #" ++ chan ++ " :PONG " ++
            snd (partition SP ("PING" ++ tail)) ++ CRLF)),
   Continue).
Proof.
  intros Hok Hbody. rewrite HANDLERS_eq. cbn [dispatch].
  change (re_match PONG_PATTERN (chat_line src chan ("PING" ++ tail))) with (@None Match).
  destruct (re_match (MESSAGE_PATTERN "!uptime") (chat_line src chan ("PING" ++ tail)))
    as [m|] eqn:E1.
  { destruct (@chat_pattern_captures _ _ _ _ _ Hok Hbody E1) as (u & g0 & t & Ht & _).
    discriminate Ht. }
  destruct (re_match (MESSAGE_PATTERN "PING") (chat_line src chan ("PING" ++ tail)))
    as [m|] eqn:E2; [|now apply chat_pattern_fires in Hok].
  destruct (@chat_pattern_captures _ _ _ _ _ Hok Hbody E2) as (u & g0 & t & _ & ->).
  apply writes_respond_return
    with (r := MessageResponse
                 (mkMatch (MESSAGE_PATTERN "PING") (chat_line src chan ("PING" ++ tail))
                    g0 [(3, "PING" ++ tail); (2, chan); (1, u)]%nat)
                 ("PONG " ++ esc (snd (partition SP ("PING" ++ tail))))).
  - apply msg_ping_match.
  - apply msg_ping_call.
Qed.

(** C5 -- the chat-level echo.  The line
    [:alice!alice@x PRIVMSG #chan :PING hello] is answered
    [PRIVMSG #chan :PONG hello] and the body [PING {evil}] is answered
    [PONG {evil}].  For every match of the rule the response is
    resolved without an exception to the chat line that carries, for
    the captured channel, ['PONG '] and the text after the first space
    of the captured message unchanged, braces included; and for every
    chat line with the body ['PING <remainder>'], where the remainder
    does not contain [' PRIVMSG #'], the loop writes
    ['PRIVMSG #<channel> :PONG <remainder>']. *)
Theorem chat_ping_echo :
  (forall config quiet w,
     writes (fst (iteration HANDLERS config quiet w
                    (":alice!alice@x PRIVMSG #chan :PING hello" ++ CRLF))) =
     ["PRIVMSG #chan :PONG hello" ++ CRLF]) /\
  (forall config quiet w,
     writes (fst (iteration HANDLERS config quiet w
                    (":alice!alice@x PRIVMSG #chan :PING {evil}" ++ CRLF))) =
     ["PRIVMSG #chan :PONG {evil}" ++ CRLF]) /\
  (forall line m,
     re_match (MESSAGE_PATTERN "PING") line = Some m ->
     exists ch body,
       group m 2 = Some ch /\ group m 3 = Some body /\
       let rest := snd (partition SP body) in
       msg_ping m = Return (MessageResponse m ("PONG " ++ esc rest)) /\
       forall config w,
         call (MessageResponse m ("PONG " ++ esc rest)) config w =
         Return (Some ("PRIVMSG #" ++ ch ++ " :PONG " ++ rest ++ CRLF))) /\
  (forall src chan remainder config quiet w,
     chat_parts_ok src chan ("PING " ++ remainder) = true ->
     contains " PRIVMSG #" ("PING " ++ remainder) = false ->
     writes (fst (iteration HANDLERS config quiet w
                    (chat_line src chan ("PING " ++ remainder)))) =
     ["PRIVMSG #" ++ chan ++ " :PONG " ++ remainder ++ CRLF]).
Proof.
  split; [|split; [|split]].
  - intros config quiet w. rewrite iteration_writes.
    destruct quiet; reflexivity.
  - intros config quiet w. rewrite iteration_writes.
    destruct quiet; reflexivity.
  - intros line m Hm.
    destruct (message_match_inv _ _ Hm) as (u & d & ch & t & e & _ & _ & _ & _ & _ & _ & _ & _ & ->).
    exists ch, ("PING" ++ t). split; [reflexivity|]. split; [reflexivity|].
    intros rest. split.
    + apply msg_ping_match.
    + intros config w. apply msg_ping_call.
  - intros src chan remainder config quiet w Hok Hbody.
    rewrite iteration_writes.
    change ("PING " ++ remainder) with ("PING" ++ String SP remainder) in *.
    rewrite (@dispatch_chat_ping config quiet w src chan (String SP remainder) Hok Hbody).
    cbn [fst]. change (writes (Call 2 :: ?l)) with (writes l).
    rewrite writes_reply. reflexivity.
Qed.

(** A body whose remainder is made of braces. *)
Lemma chat_ping_echo_witness :
  let line := ":alice!alice@x PRIVMSG #chan :PING }{ {0} {{x}}" ++ CRLF in
  let config := mkConfig "bot" "chan" "token" "id" in
  let now := mkDatetime 2020 1 1 0 0 0 0 in
  let w := mkWorld (fun _ _ => StatusData []) now now now in
  (exists m ch body,
     re_match (MESSAGE_PATTERN "PING") line = Some m /\
     group m 2 = Some ch /\ group m 3 = Some body /\
     call (MessageResponse m ("PONG " ++ esc (snd (partition SP body)))) config w =
     Return (Some ("PRIVMSG #chan :PONG }{ {0} {{x}}" ++ CRLF))) /\
  writes (fst (iteration HANDLERS config false w line)) =
  ["PRIVMSG #chan :PONG }{ {0} {{x}}" ++ CRLF].
Proof.
  intros line config now w. split.
  - destruct (proj1 (proj2 (proj2 chat_ping_echo)) line _ eq_refl)
      as (ch & body & Hc & Hb & H).
    eexists _, ch, body. split; [reflexivity|].
    split; [exact Hc|]. split; [exact Hb|].
    rewrite (proj2 H config w).
    injection Hc as <-. injection Hb as <-. reflexivity.
  - exact (proj2 (proj2 (proj2 chat_ping_echo)) "alice!alice@x" "chan" "}{ {0} {{x}}"
             config false w eq_refl eq_refl).
Defined.

(** C10 -- the chat message ['PING a PRIVMSG #other :PING b'] posted on
    [#chan].  The reply should be, on the channel of the message,
    ['PONG '] followed by the body after its first space.  The greedy
    [.*] of the pattern runs past the separator of the line to the one
    inside the body: the groups hold the channel [other] and the
    message ['PING b'], and the loop writes ['PRIVMSG #other :PONG b']. *)
Theorem chat_ping_reply_redirected :
  let config := mkConfig "bot" "chan" "token" "id" in
  let now := mkDatetime 2020 1 1 0 0 0 0 in
  let w := mkWorld (fun _ _ => StatusData []) now now now in
  let body := "PING a PRIVMSG #other :PING b" in
  let line := chat_line "alice!alice@x" "chan" body in
  chat_parts_ok "alice!alice@x" "chan" body = true /\
  line = ":alice!alice@x PRIVMSG #chan :PING a PRIVMSG #other :PING b" ++ CRLF /\
  (exists m,
     re_match (MESSAGE_PATTERN "PING") line = Some m /\
     group m 2 = Some "other" /\ group m 3 = Some "PING b") /\
  writes (fst (iteration HANDLERS config true w line)) =
    ["PRIVMSG #other :PONG b" ++ CRLF] /\
  writes (fst (iteration HANDLERS config true w line)) <>
    ["PRIVMSG #chan :PONG " ++ snd (partition SP body) ++ CRLF].
Proof.
  intros config now w body line.
  split; [reflexivity|]. split; [reflexivity|]. split.
  - eexists. split; [reflexivity|]. split; reflexivity.
  - split; [reflexivity | discriminate].
Qed.

(** So the reply is not, for every chat line, built from the body of
    the message. *)
Lemma chat_ping_reply_not_from_body :
  ~ (forall config quiet w src chan tail,
       chat_parts_ok src chan ("PING" ++ tail) = true ->
       writes (fst (iteration HANDLERS config quiet w
                      (chat_line src chan ("PING" ++ tail)))) =
       ["PRIVMSG #" ++ chan ++ " :PONG " ++
        snd (partition SP ("PING" ++ tail)) ++ CRLF]).
Proof.
  intros H.
  pose (now := mkDatetime 2020 1 1 0 0 0 0).
  specialize (H (mkConfig "bot" "chan" "token" "id") true
                (mkWorld (fun _ _ => StatusData []) now now now)
                "alice!alice@x" "chan" " a PRIVMSG #other :PING b" eq_refl).
  discriminate H.
Qed.

(** Where the echo rule does answer from the body.  The pattern of
    the rule matches every chat line whose body begins with ['PING'],
    whatever follows these four characters.  When the body does not
    contain [' PRIVMSG #'], the loop runs the echo rule and the reply,
    to the channel of the message, is ['PONG '] followed by the text
    after the first space of the body; in particular, for every body
    with no space the reply is ['PONG '] with nothing after the space. *)
Theorem chat_ping_edge (src chan tail : string) :
  chat_parts_ok src chan ("PING" ++ tail) = true ->
  re_match (MESSAGE_PATTERN "PING") (chat_line src chan ("PING" ++ tail)) <> None /\
  (contains " PRIVMSG #" ("PING" ++ tail) = false ->
   forall config quiet w,
     writes (fst (iteration HANDLERS config quiet w
                    (chat_line src chan ("PING" ++ tail)))) =
       ["PRIVMSG #" ++ chan ++ " :PONG " ++
        snd (partition SP ("PING" ++ tail)) ++ CRLF] /\
     calls (fst (iteration HANDLERS config quiet w
                   (chat_line src chan ("PING" ++ tail)))) = [2%nat]) /\
  (occurs SP tail = false ->
   forall config quiet w,
     writes (fst (iteration HANDLERS config quiet w
                    (chat_line src chan ("PING" ++ tail)))) =
       ["PRIVMSG #" ++ chan ++ " :PONG " ++ CRLF]).
Proof.
  intros Hok.
  assert (Hgen : contains " PRIVMSG #" ("PING" ++ tail) = false ->
                 forall config quiet w,
                   writes (fst (iteration HANDLERS config quiet w
                                  (chat_line src chan ("PING" ++ tail)))) =
                     ["PRIVMSG #" ++ chan ++ " :PONG " ++
                      snd (partition SP ("PING" ++ tail)) ++ CRLF] /\
                   calls (fst (iteration HANDLERS config quiet w
                                 (chat_line src chan ("PING" ++ tail)))) = [2%nat]).
  { intros Hbody config quiet w.
    rewrite iteration_writes, iteration_calls.
    rewrite (@dispatch_chat_ping config quiet w _ _ _ Hok Hbody). cbn [fst].
    change (writes (Call 2 :: ?l)) with (writes l).
    change (calls (Call 2 :: ?l)) with (2%nat :: calls l).
    now rewrite writes_reply, calls_reply. }
  split; [now apply chat_pattern_fires|]. split; [exact Hgen|].
  intros Hsp config quiet w.
  assert (Hb : occurs SP ("PING" ++ tail) = false) by exact Hsp.
  rewrite (proj1 (Hgen (@contains_occurs _ _ _ Hb) config quiet w)).
  now rewrite (@partition_no_sep _ _ Hb).
Qed.

(** The bodies ['PINGx hello'] and ['PING']. *)
Lemma chat_ping_edge_witness :
  let config := mkConfig "bot" "chan" "token" "id" in
  let now := mkDatetime 2020 1 1 0 0 0 0 in
  let w := mkWorld (fun _ _ => StatusData []) now now now in
  chat_parts_ok "alice!alice@x" "chan" "PINGx hello" = true /\
  writes (fst (iteration HANDLERS config true w
                 (":alice!alice@x PRIVMSG #chan :PINGx hello" ++ CRLF))) =
    ["PRIVMSG #chan :PONG hello" ++ CRLF] /\
  writes (fst (iteration HANDLERS config true w
                 (":alice!alice@x PRIVMSG #chan :PING" ++ CRLF))) =
    ["PRIVMSG #chan :PONG " ++ CRLF].
Proof.
  intros config now w. split; [reflexivity|]. split.
  - exact (proj1 (proj1 (proj2 (@chat_ping_edge "alice!alice@x" "chan" "x hello" eq_refl))
                    eq_refl config true w)).
  - exact (proj2 (proj2 (@chat_ping_edge "alice!alice@x" "chan" EmptyString eq_refl))
             eq_refl config true w).
Defined.

(* ================================================================== *)
(** * More on the loop *)

Lemma dispatch_no_match handlers config quiet w msg :
  forall i,
    (forall p h, In (p, h) handlers -> re_match p msg = None) ->
    dispatch i handlers config quiet w msg =
    (if quiet then [] else [Stdout ("UNHANDLED: " ++ msg)], Continue).
Proof.
  induction handlers as [|[p h] handlers IH]; intros i H; simpl; [reflexivity|].
  rewrite (H p h (or_introl eq_refl)). apply IH.
  intros p' h' Hin. apply (H p' h'). now right.
Qed.

(** X1 -- a line that no rule matches.  For every registry, when no
    pattern matches the line the iteration writes nothing to the
    transport and invokes no handler; it prints ['UNHANDLED: <line>']
    unless [quiet], and the loop goes on with the lines that follow. *)
Theorem unmatched_line_ignored (handlers : list rule) (config : Config) (quiet : bool)
  (w : World) (msg : string) (incoming : list (World * string)) :
  (forall p h, In (p, h) handlers -> re_match p msg = None) ->
  let ev :=
    (recv msg quiet ++ log_incoming w msg ++
     (if quiet then [] else [Stdout ("UNHANDLED: " ++ msg)]))%list in
  iteration handlers config quiet w msg = (ev, Continue) /\
  writes ev = [] /\ calls ev = [] /\
  main_loop handlers config quiet ((w, msg) :: incoming) =
    ((ev ++ fst (main_loop handlers config quiet incoming))%list,
     snd (main_loop handlers config quiet incoming)).
Proof.
  intros H ev.
  assert (Hit : iteration handlers config quiet w msg = (ev, Continue)).
  { unfold iteration. now rewrite (dispatch_no_match _ _ _ _ _ 0 H). }
  repeat split.
  - exact Hit.
  - unfold ev. rewrite !writes_app, writes_recv, writes_log_incoming.
    destruct quiet; reflexivity.
  - unfold ev, calls. rewrite !filter_map_app.
    fold (calls (recv msg quiet)). fold (calls (log_incoming w msg)).
    rewrite calls_recv, calls_log_incoming. destruct quiet; reflexivity.
  - now apply main_loop_continue.
Qed.

(** A numeric reply of the server, then a keep-alive. *)
Lemma unmatched_line_ignored_witness :
  let config := mkConfig "bot" "chan" "token" "id" in
  let now := mkDatetime 2020 1 1 0 0 0 0 in
  let w := mkWorld (fun _ _ => StatusData []) now now now in
  let msg := ":tmi.twitch.tv 001 bot :Welcome, GLHF!" ++ CRLF in
  fst (main_loop HANDLERS config false [(w, msg); (w, "PING :x" ++ CRLF)]) =
  [Stderr ("> " ++ msg); Stdout ("UNHANDLED: " ++ msg);
   Stderr ("> PING :x" ++ CRLF); Call 0;
   Stderr ("< PONG :x" ++ CRLF); Write ("PONG :x" ++ CRLF)].
Proof.
  intros config now w msg.
  assert (H : forall p h, In (p, h) HANDLERS -> re_match p msg = None).
  { intros p h [E|[E|[E|[]]]]; injection E as <- _; reflexivity. }
  rewrite (proj2 (proj2 (proj2 (@unmatched_line_ignored HANDLERS config false w msg
             [(w, "PING :x" ++ CRLF)] H)))).
  reflexivity.
Defined.

(** X2 -- a response that resolves to nothing.  For every registry,
    when the response of the first matching rule resolves to [None],
    as the base class [Response] does, nothing is written and nothing
    is logged for a reply; the loop goes on. *)
Theorem empty_response_writes_nothing (handlers : list rule) (config : Config)
  (quiet : bool) (w : World) (msg : string)
  (i : nat) (pattern : regex) (h : Callback) (m : Match) (r : Response) :
  nth_error handlers i = Some (pattern, h) ->
  re_match pattern msg = Some m ->
  (forall j pj hj, (j < i)%nat -> nth_error handlers j = Some (pj, hj) ->
                   re_match pj msg = None) ->
  h m = Return r -> call r config w = Return None ->
  iteration handlers config quiet w msg =
    ((recv msg quiet ++ log_incoming w msg ++ [Call i])%list, Continue) /\
  writes (fst (iteration handlers config quiet w msg)) = [].
Proof.
  intros Hn Hm Hprev Hh Hc.
  assert (Hit : iteration handlers config quiet w msg =
                ((recv msg quiet ++ log_incoming w msg ++ [Call i])%list, Continue)).
  { unfold iteration.
    rewrite (@dispatch_first handlers config quiet w msg 0 i pattern h m Hn Hm Hprev).
    cbn [Nat.add].
    now rewrite (@writes_respond_return i h m config quiet w r None Hh Hc). }
  split; [exact Hit|].
  rewrite Hit. cbn [fst].
  now rewrite !writes_app, writes_recv, writes_log_incoming.
Qed.

Lemma empty_response_writes_nothing_witness :
  let silent : Callback := fun _ => Return BaseResponse in
  let handlers := handle_message ["!lurk"] silent [] in
  let config := mkConfig "bot" "chan" "token" "id" in
  let now := mkDatetime 2020 1 1 0 0 0 0 in
  let w := mkWorld (fun _ _ => StatusData []) now now now in
  let msg := ":alice!alice@x PRIVMSG #chan :!lurk" ++ CRLF in
  iteration handlers config true w msg =
  ([Stdout ("[00:00]<alice> !lurk" ++ str1 LF); Call 0], Continue).
Proof.
  intros silent handlers config now w msg.
  rewrite (proj1 (@empty_response_writes_nothing handlers config true w msg 0
             (MESSAGE_PATTERN "!lurk") silent _ BaseResponse eq_refl eq_refl
             (fun j pj hj Hj _ => match Nat.nlt_0_r j Hj with end) eq_refl eq_refl)).
  reflexivity.
Defined.

Lemma writes_respond_length i (h : Callback) m config quiet w :
  (List.length (writes (fst (respond i h m config quiet w))) <= 1)%nat.
Proof.
  unfold respond.
  destruct (r <- h m;; call r config w) as [res|[n|n]|];
    rewrite ?format_PRIVMSG_kw; cbn [fst];
    repeat match goal with
      | |- context [writes (Call ?j :: ?l)] =>
          change (writes (Call j :: l)) with (writes l)
      | |- context [writes (PrintExc ?e :: ?l)] =>
          change (writes (PrintExc e :: l)) with (writes l)
      end;
    rewrite ?writes_reply; try destruct res; simpl; lia.
Qed.

(** X3 -- one line in, at most one line out.  For every registry,
    configuration, world and incoming line, an iteration of the loop
    writes at most one line to the transport. *)
Theorem at_most_one_write (handlers : list rule) (config : Config) (quiet : bool)
  (w : World) (msg : string) :
  (List.length (writes (fst (iteration handlers config quiet w msg))) <= 1)%nat.
Proof.
  rewrite iteration_writes.
  assert (H : forall i,
             (List.length (writes (fst (dispatch i handlers config quiet w msg))) <= 1)%nat).
  { induction handlers as [|[p h] handlers IH]; intros i; simpl.
    - destruct quiet; simpl; lia.
    - destruct (re_match p msg) as [m|]; [apply writes_respond_length | apply IH]. }
  apply H.
Qed.

Lemma stderr_app (l1 l2 : list event) :
  filter is_stderr (l1 ++ l2)%list = (filter is_stderr l1 ++ filter is_stderr l2)%list.
Proof. apply filter_app. Qed.

Lemma reply_quiet config w res :
  writes (reply config true w res) = writes (reply config false w res) /\
  filter is_stderr (reply config true w res) = [].
Proof.
  rewrite !writes_reply. split; [reflexivity|].
  destruct res as [res|]; [|reflexivity]. unfold reply, send.
  destruct (re_match SEND_MSG_RE res); reflexivity.
Qed.

Lemma respond_quiet i (h : Callback) m config w :
  writes (fst (respond i h m config true w)) =
    writes (fst (respond i h m config false w)) /\
  snd (respond i h m config true w) = snd (respond i h m config false w) /\
  filter is_stderr (fst (respond i h m config true w)) = [].
Proof.
  unfold respond.
  destruct (r <- h m;; call r config w) as [res|[n|n]|];
    rewrite ?format_PRIVMSG_kw; cbn [fst snd];
    repeat match goal with
      | |- context [writes (Call ?j :: ?l)] =>
          change (writes (Call j :: l)) with (writes l)
      | |- context [writes (PrintExc ?e :: ?l)] =>
          change (writes (PrintExc e :: l)) with (writes l)
      | |- context [filter is_stderr (Call ?j :: ?l)] =>
          change (filter is_stderr (Call j :: l)) with (filter is_stderr l)
      | |- context [filter is_stderr (PrintExc ?e :: ?l)] =>
          change (filter is_stderr (PrintExc e :: l)) with (filter is_stderr l)
      end;
    repeat split; try reflexivity; apply reply_quiet.
Qed.

Lemma iteration_quiet handlers config w msg :
  writes (fst (iteration handlers config true w msg)) =
    writes (fst (iteration handlers config false w msg)) /\
  snd (iteration handlers config true w msg) =
    snd (iteration handlers config false w msg) /\
  filter is_stderr (fst (iteration handlers config true w msg)) = [].
Proof.
  assert (Hd : forall i,
             writes (fst (dispatch i handlers config true w msg)) =
               writes (fst (dispatch i handlers config false w msg)) /\
             snd (dispatch i handlers config true w msg) =
               snd (dispatch i handlers config false w msg) /\
             filter is_stderr (fst (dispatch i handlers config true w msg)) = []).
  { induction handlers as [|[p h] handlers IH]; intros i; simpl.
    - repeat split.
    - destruct (re_match p msg) as [m|]; [apply respond_quiet | apply IH]. }
  rewrite !iteration_writes. unfold iteration.
  destruct (Hd 0%nat) as (H1 & H2 & H3).
  destruct (dispatch 0 handlers config true w msg) as [ev1 f1].
  destruct (dispatch 0 handlers config false w msg) as [ev2 f2].
  cbn [fst snd] in *. repeat split; [exact H1 | exact H2 |].
  rewrite !stderr_app, H3. unfold log_incoming.
  destruct (re_match MSG_RE msg); reflexivity.
Qed.

(** X4 -- [quiet] changes the trace only.  For every registry and every
    run, what is written to the transport and how the run ends are the
    same with [quiet] set or not, and with [quiet] set nothing is
    written to standard error by [send] and [recv]. *)
Theorem quiet_only_silences (handlers : list rule) (config : Config)
  (incoming : list (World * string)) :
  writes (fst (amain_with handlers config true incoming)) =
    writes (fst (amain_with handlers config false incoming)) /\
  snd (amain_with handlers config true incoming) =
    snd (amain_with handlers config false incoming) /\
  filter is_stderr (fst (amain_with handlers config true incoming)) = [].
Proof.
  assert (Hl : writes (fst (main_loop handlers config true incoming)) =
                 writes (fst (main_loop handlers config false incoming)) /\
               snd (main_loop handlers config true incoming) =
                 snd (main_loop handlers config false incoming) /\
               filter is_stderr (fst (main_loop handlers config true incoming)) = []).
  { induction incoming as [|[w msg] incoming IH]; [repeat split|].
    cbn [main_loop].
    destruct (iteration_quiet handlers config w msg) as (H1 & H2 & H3).
    destruct (iteration handlers config true w msg) as [ev1 f1].
    destruct (iteration handlers config false w msg) as [ev2 f2].
    cbn [fst snd] in H1, H2, H3. subst f2.
    destruct IH as (I1 & I2 & I3).
    destruct (main_loop handlers config true incoming) as [ev1' f1'].
    destruct (main_loop handlers config false incoming) as [ev2' f2'].
    cbn [fst snd] in I1, I2, I3.
    destruct f1; cbn [fst snd]; rewrite ?writes_app, ?stderr_app;
      repeat split; congruence || (rewrite H3, I3; reflexivity) || assumption. }
  unfold amain_with.
  destruct Hl as (H1 & H2 & H3).
  destruct (main_loop handlers config true incoming) as [ev1 f1].
  destruct (main_loop handlers config false incoming) as [ev2 f2].
  cbn [fst snd] in *. rewrite !writes_app, stderr_app, H1, H3.
  repeat split; assumption || reflexivity.
Qed.

(** X5 -- an exception that is not an [Exception].  For every registry,
    when the factory of the matched rule or the call of its response
    raises a [BaseException] outside [Exception], the handler of line
    188 does not catch it: nothing is written, no traceback is
    printed by the loop, the loop ends with that exception and the
    lines that follow are not processed. *)
Theorem system_exit_ends_loop (handlers : list rule) (config : Config) (quiet : bool)
  (w : World) (msg : string) (incoming : list (World * string))
  (i : nat) (pattern : regex) (h : Callback) (m : Match) (n : string) :
  nth_error handlers i = Some (pattern, h) ->
  re_match pattern msg = Some m ->
  (forall j pj hj, (j < i)%nat -> nth_error handlers j = Some (pj, hj) ->
                   re_match pj msg = None) ->
  (h m = Raise (SysExc n) \/
   exists r, h m = Return r /\ call r config w = Raise (SysExc n)) ->
  main_loop handlers config quiet ((w, msg) :: incoming) =
    ((recv msg quiet ++ log_incoming w msg ++ [Call i])%list, Crash (SysExc n)) /\
  writes (fst (main_loop handlers config quiet ((w, msg) :: incoming))) = [].
Proof.
  intros Hn Hm Hprev Hraise.
  assert (Hb : (r <- h m;; call r config w) = Raise (SysExc n)).
  { destruct Hraise as [-> | (r & -> & Hr)]; [reflexivity | exact Hr]. }
  assert (Hl : main_loop handlers config quiet ((w, msg) :: incoming) =
               ((recv msg quiet ++ log_incoming w msg ++ [Call i])%list,
                Crash (SysExc n))).
  { cbn [main_loop]. unfold iteration.
    rewrite (@dispatch_first handlers config quiet w msg 0 i pattern h m Hn Hm Hprev).
    cbn [Nat.add]. unfold respond. rewrite Hb. reflexivity. }
  split; [exact Hl|].
  rewrite Hl. cbn [fst].
  now rewrite !writes_app, writes_recv, writes_log_incoming.
Qed.

(** A cancelled status request. *)
Lemma system_exit_ends_loop_witness :
  let config := mkConfig "bot" "chan" "token" "id" in
  let now := mkDatetime 2020 1 1 0 0 0 0 in
  let w := mkWorld (fun _ _ => StatusFails (SysExc "CancelledError")) now now now in
  let msg := ":alice!alice@x PRIVMSG #chan :!uptime" ++ CRLF in
  main_loop HANDLERS config true [(w, msg); (w, "PING :x" ++ CRLF)] =
  ([Stdout ("[00:00]<alice> !uptime" ++ str1 LF); Call 1], Crash (SysExc "CancelledError")).
Proof.
  intros config now w msg.
  assert (Hprev : forall j pj hj, (j < 1)%nat ->
                    nth_error HANDLERS j = Some (pj, hj) -> re_match pj msg = None).
  { intros j pj hj Hj E. destruct j; [|lia]. injection E as <- _. reflexivity. }
  rewrite (proj1 (@system_exit_ends_loop HANDLERS config true w msg
             [(w, "PING :x" ++ CRLF)] 1 (MESSAGE_PATTERN "!uptime") cmd_uptime _
             "CancelledError" eq_refl eq_refl Hprev
             (or_intror (ex_intro _ UptimeResponse (conj eq_refl eq_refl))))).
  reflexivity.
Defined.

(** X6 -- lines are processed in sequence.  For every registry, the run
    over the lines [l1 ++ l2] does what the run over [l1] does and then,
    if that run did not end the loop, what the run over [l2] does; a
    run that ended the loop is not changed by lines that come later. *)
Theorem main_loop_app (handlers : list rule) (config : Config) (quiet : bool)
  (l1 l2 : list (World * string)) :
  main_loop handlers config quiet (l1 ++ l2) =
  match snd (main_loop handlers config quiet l1) with
  | Continue =>
      ((fst (main_loop handlers config quiet l1) ++
        fst (main_loop handlers config quiet l2))%list,
       snd (main_loop handlers config quiet l2))
  | _ => main_loop handlers config quiet l1
  end.
Proof.
  induction l1 as [|[w msg] l1 IH]; cbn [app main_loop].
  - now destruct (main_loop handlers config quiet l2).
  - destruct (iteration handlers config quiet w msg) as [ev [|e|]]; try reflexivity.
    rewrite IH.
    destruct (main_loop handlers config quiet l1) as [ev1 [|e|]]; cbn [fst snd];
      try reflexivity.
    now rewrite app_assoc.
Qed.

(* ================================================================== *)
(** * Registration *)

Lemma dispatch_app_matched old new config quiet w msg :
  forall i,
    (exists p h, In (p, h) old /\ re_match p msg <> None) ->
    dispatch i (old ++ new) config quiet w msg = dispatch i old config quiet w msg.
Proof.
  induction old as [|[p0 h0] old IH]; intros i (p & h & Hin & Hm).
  - destruct Hin.
  - cbn [app dispatch]. destruct (re_match p0 msg) as [m|] eqn:E; [reflexivity|].
    apply IH. destruct Hin as [Heq|Hin].
    + injection Heq as -> _. congruence.
    + now exists p, h.
Qed.

Lemma dispatch_app_unmatched old new config quiet w msg :
  forall i,
    (forall p h, In (p, h) old -> re_match p msg = None) ->
    dispatch i (old ++ new) config quiet w msg =
    dispatch (i + List.length old) new config quiet w msg.
Proof.
  induction old as [|[p0 h0] old IH]; intros i H.
  - cbn [app List.length]. now rewrite Nat.add_0_r.
  - cbn [app dispatch List.length].
    rewrite (H p0 h0 (or_introl eq_refl)).
    rewrite IH by (intros p h Hin; apply (H p h); now right).
    f_equal. lia.
Qed.

(** X7 -- registration is order-stable.  Registering rules through
    [handler] leaves the rules already registered where they are: a
    line that one of them matches is handled as before the
    registration, and only a line that none of them matches reaches
    the new rules, which are tried in the order of their prefixes. *)
Theorem registration_keeps_precedence (old : list rule) (prefixes : list regex)
  (func : Callback) (config : Config) (quiet : bool) (w : World) (msg : string) :
  ((exists p h, In (p, h) old /\ re_match p msg <> None) ->
   iteration (handler prefixes func old) config quiet w msg =
   iteration old config quiet w msg) /\
  ((forall p h, In (p, h) old -> re_match p msg = None) ->
   dispatch 0 (handler prefixes func old) config quiet w msg =
   dispatch (List.length old) (handler prefixes func []) config quiet w msg).
Proof.
  split; intros H.
  - unfold iteration, handler. now rewrite dispatch_app_matched.
  - unfold handler. now rewrite dispatch_app_unmatched.
Qed.

(** A second rule for the keep-alive lines, registered last, is never
    run; a rule for another command is. *)
Lemma registration_keeps_precedence_witness :
  let late : Callback := fun _ => Return (CmdResponse ("QUIT" ++ CRLF)) in
  let config := mkConfig "bot" "chan" "token" "id" in
  let now := mkDatetime 2020 1 1 0 0 0 0 in
  let w := mkWorld (fun _ _ => StatusData []) now now now in
  iteration (handler [PONG_PREFIX] late HANDLERS) config true w ("PING :x" ++ CRLF) =
    ([Call 0; Write ("PONG :x" ++ CRLF)], Continue) /\
  dispatch 0 (handler [(Bol +++ Lit "QUIT")%re] late HANDLERS) config true w
    ("QUIT" ++ CRLF) =
    ([Call 3; Write ("QUIT" ++ CRLF)], Continue).
Proof.
  intros late config now w. split.
  - assert (Hm : exists p h, In (p, h) HANDLERS /\
                             re_match p ("PING :x" ++ CRLF) <> None).
    { exists PONG_PATTERN, pong. split; [left; reflexivity | discriminate]. }
    pose proof (proj1 (@registration_keeps_precedence HANDLERS [PONG_PREFIX] late
                  config true w ("PING :x" ++ CRLF)) Hm) as H.
    etransitivity; [exact H|]. vm_compute. reflexivity.
  - assert (Hn : forall p h, In (p, h) HANDLERS ->
                             re_match p ("QUIT" ++ CRLF) = None).
    { intros p h [E|[E|[E|[]]]]; injection E as <- _; reflexivity. }
    pose proof (proj2 (@registration_keeps_precedence HANDLERS
                  [(Bol +++ Lit "QUIT")%re] late config true w ("QUIT" ++ CRLF)) Hn) as H.
    etransitivity; [exact H|]. vm_compute. reflexivity.
Defined.

(* ================================================================== *)
(** * What the registered handlers can raise *)

(** X8 -- the registered handlers on their own matches.  For every
    rule of the registry and every match of its pattern, the factory
    and the call of the response give a line to send, or raise the
    exception with which obtaining the stream status failed (the
    request, the decoding of its answer and the reading of the start
    time, lines 123-135) and no other: [pong] and [msg_ping] raise
    nothing, whatever the line, and the uptime response raises nothing
    once it has the status. *)
Theorem registered_handlers_resolve (p : regex) (h : Callback) (line : string)
  (m : Match) (config : Config) (w : World) :
  In (p, h) HANDLERS ->
  re_match p line = Some m ->
  (exists out, (r <- h m;; call r config w) = Return (Some out)) \/
  (exists e,
     p = MESSAGE_PATTERN "!uptime" /\
     http_get w (status_url config) (client_id config) = StatusFails e /\
     (r <- h m;; call r config w) = Raise e).
Proof.
  rewrite HANDLERS_eq. intros [E|[E|[E|[]]]] Hm; injection E as <- <-.
  - left. destruct (pong_match_inv _ Hm) as (pl & e & _ & _ & _ & ->).
    eexists. reflexivity.
  - unfold cmd_uptime. cbn [bind call UptimeResponse].
    destruct (http_get w (status_url config) (client_id config))
      as [e|[|start others]].
    + right. exists e. auto.
    + left. rewrite format_PRIVMSG_kw. eexists. reflexivity.
    + left. rewrite format_PRIVMSG_kw. eexists. reflexivity.
  - left.
    destruct (message_match_inv _ _ Hm)
      as (u & d & ch & t & e & _ & _ & _ & _ & _ & _ & _ & _ & ->).
    rewrite msg_ping_match. cbn [bind]. rewrite msg_ping_call.
    eexists. reflexivity.
Qed.

(** A chat message of braces for the echo rule, and a status request
    that fails for the uptime rule. *)
Lemma registered_handlers_resolve_witness :
  let config := mkConfig "bot" "chan" "token" "id" in
  let now := mkDatetime 2020 1 1 0 0 0 0 in
  let w := mkWorld (fun _ _ => StatusFails (Exc "JSONDecodeError")) now now now in
  (exists m out,
     re_match (MESSAGE_PATTERN "PING")
       (":alice!alice@x PRIVMSG #chan :PING {0} }{" ++ CRLF) = Some m /\
     (r <- msg_ping m;; call r config w) = Return (Some out)) /\
  (exists m,
     re_match (MESSAGE_PATTERN "!uptime")
       (":alice!alice@x PRIVMSG #chan :!uptime" ++ CRLF) = Some m /\
     (r <- cmd_uptime m;; call r config w) = Raise (Exc "JSONDecodeError")).
Proof.
  intros config now w. split.
  - destruct (@registered_handlers_resolve (MESSAGE_PATTERN "PING") msg_ping
                (":alice!alice@x PRIVMSG #chan :PING {0} }{" ++ CRLF) _ config w
                (or_intror (or_intror (or_introl eq_refl))) eq_refl)
      as [[out H] | (e & Hp & _)]; [|discriminate Hp].
    eexists _, out. split; [reflexivity | exact H].
  - destruct (@registered_handlers_resolve (MESSAGE_PATTERN "!uptime") cmd_uptime
                (":alice!alice@x PRIVMSG #chan :!uptime" ++ CRLF) _ config w
                (or_intror (or_introl eq_refl)) eq_refl)
      as [[out H] | (e & _ & He & H)]; [discriminate H|].
    eexists. split; [reflexivity|].
    injection He as <-. exact H.
Defined.

(* ================================================================== *)
(** * More on the uptime command *)

Local Open Scope Z_scope.

Lemma seconds_range (a b : datetime) : 0 <= seconds (datetime_sub a b) < 86400.
Proof. rewrite seconds_of_sub. apply Z.mod_pos_bound. lia. Qed.

(** X9 -- the uptime reply stays within a day.  Whatever the start time
    of the first record and the current time are, the numbers in the
    reply are hours below 24, minutes below 60 and seconds below 60,
    none negative. *)
Theorem uptime_parts_bounded (config : Config) (w : World)
  (start : datetime) (others : list datetime) :
  http_get w (status_url config) (client_id config) = StatusData (start :: others) ->
  exists h m s,
    0 <= h < 24 /\ 0 <= m < 60 /\ 0 <= s < 60 /\
    call UptimeResponse config w =
    Return (Some ("PRIVMSG #" ++ channel config ++ " :streaming for: " ++
                  String.concat ", "
                    (part h "hours" ++ part m "minutes" ++ part s "seconds") ++
                  CRLF)%string).
Proof.
  intros H.
  pose proof (seconds_range (utcnow w) start) as Hr.
  set (e := seconds (datetime_sub (utcnow w) start)) in *.
  exists (e / 3600), (e mod 3600 / 60), (e mod 60).
  repeat split.
  - apply Z.div_pos; lia.
  - apply Z.div_lt_upper_bound; lia.
  - apply Z.div_pos; [apply Z.mod_pos_bound|]; lia.
  - apply Z.div_lt_upper_bound; [lia|]. pose proof (Z.mod_pos_bound e 3600). lia.
  - apply Z.mod_pos_bound. lia.
  - apply Z.mod_pos_bound. lia.
  - rewrite (uptime_live _ _ H). fold e. rewrite uptime_parts_units.
    unfold privmsg. now rewrite !sapp_assoc.
Qed.

Lemma uptime_parts_bounded_witness :
  let config := mkConfig "bot" "chan" "token" "id" in
  let start := mkDatetime 2019 12 30 10 0 0 0 in
  let w := mkWorld (fun _ _ => StatusData [start])
             (mkDatetime 2020 1 1 9 59 59 999999) start start in
  exists h m s,
    0 <= h < 24 /\ 0 <= m < 60 /\ 0 <= s < 60 /\
    call UptimeResponse config w =
    Return (Some ("PRIVMSG #chan :streaming for: " ++
                  String.concat ", "
                    (part h "hours" ++ part m "minutes" ++ part s "seconds") ++
                  CRLF)%string).
Proof.
  intros config start w.
  exact (@uptime_parts_bounded config w start [] eq_refl).
Defined.

(** X10 -- a stream that started within the current second.  When
    less than one second has elapsed, every part is left out and the
    reply is ['streaming for: '] with nothing after it. *)
Theorem uptime_just_started (config : Config) (w : World)
  (start : datetime) (others : list datetime) :
  http_get w (status_url config) (client_id config) = StatusData (start :: others) ->
  0 <= total_microseconds (datetime_sub (utcnow w) start) < 1000000 ->
  call UptimeResponse config w =
  Return (Some ("PRIVMSG #" ++ channel config ++ " :streaming for: " ++ CRLF)%string).
Proof.
  intros H Ht. rewrite (uptime_live _ _ H), seconds_of_sub.
  rewrite (Z.div_small _ _ Ht). reflexivity.
Qed.

Lemma uptime_just_started_witness :
  let config := mkConfig "bot" "chan" "token" "id" in
  let start := mkDatetime 2020 1 1 12 0 0 0 in
  let w := mkWorld (fun _ _ => StatusData [start])
             (mkDatetime 2020 1 1 12 0 0 250000) start start in
  call UptimeResponse config w =
  Return (Some ("PRIVMSG #chan :streaming for: " ++ CRLF)%string).
Proof.
  intros config start w.
  refine (@uptime_just_started config w start [] eq_refl _).
  change (0 <= 250000 < 1000000). lia.
Defined.

(** X11 -- a start time ahead of the clock.  When the start time of
    the record is [s] whole seconds after the current time, for [s] up
    to one day, the reply counts [86400 - s] seconds: one second ahead
    gives 23 hours, 59 minutes, 59 seconds. *)
Theorem uptime_start_in_future (config : Config) (w : World)
  (start : datetime) (others : list datetime) (s : Z) :
  http_get w (status_url config) (client_id config) = StatusData (start :: others) ->
  0 < s <= 86400 ->
  total_microseconds (datetime_sub (utcnow w) start) = - s * 1000000 ->
  seconds (datetime_sub (utcnow w) start) = 86400 - s /\
  (s = 1 ->
   call UptimeResponse config w =
   Return (Some ("PRIVMSG #" ++ channel config ++
                 " :streaming for: 23 hours, 59 minutes, 59 seconds" ++ CRLF)%string)).
Proof.
  intros H Hs Ht.
  assert (He : seconds (datetime_sub (utcnow w) start) = 86400 - s).
  { rewrite seconds_of_sub, Ht, Z.div_mul by lia.
    replace (- s) with ((86400 - s) + (-1) * 86400) by lia.
    rewrite Z.mod_add by lia. apply Z.mod_small. lia. }
  split; [exact He|].
  intros ->. rewrite (uptime_live _ _ H), He. reflexivity.
Qed.

Lemma uptime_start_in_future_witness :
  let config := mkConfig "bot" "chan" "token" "id" in
  let start := mkDatetime 2020 1 1 0 0 0 0 in
  let w := mkWorld (fun _ _ => StatusData [start])
             (mkDatetime 2019 12 31 23 59 59 0) start start in
  call UptimeResponse config w =
  Return (Some ("PRIVMSG #chan :streaming for: 23 hours, 59 minutes, 59 seconds" ++
                CRLF)%string).
Proof.
  intros config start w.
  refine (proj2 (@uptime_start_in_future config w start [] 1 eq_refl _ eq_refl) eq_refl).
  lia.
Defined.

Local Close Scope Z_scope.

Lemma dispatch_chat_uptime (config : Config) (quiet : bool) (w : World)
  (src chan tail : string) :
  chat_parts_ok src chan ("!uptime" ++ tail) = true ->
  exists m,
    dispatch 0 HANDLERS config quiet w (chat_line src chan ("!uptime" ++ tail)) =
    respond 1 cmd_uptime m config quiet w.
Proof.
  intros Hok. rewrite HANDLERS_eq. cbn [dispatch].
  change (re_match PONG_PATTERN (chat_line src chan ("!uptime" ++ tail)))
    with (@None Match).
  destruct (re_match (MESSAGE_PATTERN "!uptime") (chat_line src chan ("!uptime" ++ tail)))
    as [m|] eqn:E; [|now apply chat_pattern_fires in Hok].
  now exists m.
Qed.

(** X12 -- the uptime command.  Every chat line whose body begins with
    ['!uptime'], whatever follows and whatever channel the line names,
    runs the uptime rule, and what the loop writes is what the status
    of the configured channel gives: the uptime reply addressed to the
    configured channel, or the fallback line when the request raises an
    [Exception]. *)
Theorem uptime_command (config : Config) (quiet : bool) (w : World)
  (src chan tail : string) :
  chat_parts_ok src chan ("!uptime" ++ tail) = true ->
  calls (fst (iteration HANDLERS config quiet w
                (chat_line src chan ("!uptime" ++ tail)))) = [1%nat] /\
  writes (fst (iteration HANDLERS config quiet w
                 (chat_line src chan ("!uptime" ++ tail)))) =
  match call UptimeResponse config w with
  | Return (Some line) => [line]
  | Raise (Exc n) =>
      ["PRIVMSG #" ++ channel config ++ " :*** unhandled " ++ n ++ " -- see logs" ++ CRLF]
  | _ => []
  end.
Proof.
  intros Hok. rewrite iteration_calls, iteration_writes.
  destruct (dispatch_chat_uptime config quiet w _ _ _ Hok) as [m ->].
  split; [apply calls_respond|].
  unfold respond, cmd_uptime. cbn [bind].
  destruct (call UptimeResponse config w) as [[line|]|[n|n]|];
    rewrite ?format_PRIVMSG_kw, ?unhandled_line; cbn [fst];
    repeat match goal with
      | |- context [writes (Call ?j :: ?l)] =>
          change (writes (Call j :: l)) with (writes l)
      | |- context [writes (PrintExc ?e :: ?l)] =>
          change (writes (PrintExc e :: l)) with (writes l)
      end;
    rewrite ?writes_reply; reflexivity.
Qed.

(** The command asked on another channel, with text after it. *)
Lemma uptime_command_witness :
  let config := mkConfig "bot" "chan" "token" "id" in
  let now := mkDatetime 2020 1 1 0 0 0 0 in
  let w := mkWorld
             (fun url _ =>
                if String.eqb url "https://api.twitch.tv/helix/streams?user_login=chan"
                then StatusData [] else StatusFails (Exc "ClientError"))
             now now now in
  writes (fst (iteration HANDLERS config true w
                 (":bob!bob@y PRIVMSG #elsewhere :!uptimes please" ++ CRLF))) =
  ["PRIVMSG #chan :not currently streaming!" ++ CRLF].
Proof.
  intros config now w.
  exact (proj2 (@uptime_command config true w "bob!bob@y" "elsewhere" "s please" eq_refl)).
Defined.

(** X13 -- protocol lines and chat lines do not overlap.  No input
    matches both the pattern of the keep-alive rule and the pattern
    that [handle_message] builds for a prefix of literal characters:
    the keep-alive rule and such chat rules answer different lines, in
    whatever order they are registered. *)
Theorem keepalive_and_chat_disjoint (message_prefix s : string) (m : Match) :
  is_literal message_prefix = true ->
  re_match PONG_PATTERN s = Some m ->
  re_match (MESSAGE_PATTERN message_prefix) s = None.
Proof.
  intros _ H. destruct (pong_match_inv _ H) as (p & e & -> & _). reflexivity.
Qed.

Lemma keepalive_and_chat_disjoint_witness :
  is_literal "PING" = true /\
  re_match (MESSAGE_PATTERN "PING") ("PING :alice!a@x PRIVMSG #chan :PING" ++ CRLF) = None.
Proof.
  split; [reflexivity|].
  exact (@keepalive_and_chat_disjoint "PING"
           ("PING :alice!a@x PRIVMSG #chan :PING" ++ CRLF) _ eq_refl eq_refl).
Defined.

(* ================================================================== *)
(** * Where greedy repetition stops *)

Section Greedy.

Variable A : Type.

(** A run of the class that the input does not continue is taken
    whole when what follows succeeds after it. *)
Lemma star_stop (cc : cclass) (w rest : string) :
  forall k : string -> string -> option A,
    all_cc cc w = true -> stops cc rest -> k w rest <> None ->
    star cc (w ++ rest) k = k w rest.
Proof.
  induction w as [|a w IH]; intros k Hw Hr Hk.
  - cbn [append]. destruct rest as [|b rest]; [reflexivity|].
    simpl in Hr. simpl. now rewrite Hr.
  - simpl in Hw. apply andb_true_iff in Hw. destruct Hw as [Ha Hw].
    cbn [append star]. rewrite Ha.
    rewrite (IH (fun w' rest' => k (String a w') rest') Hw Hr Hk).
    destruct (k (String a w) rest); [reflexivity | contradiction].
Qed.

Lemma exec_cat (r1 r2 : regex) pos s c (k : cont A) :
  exec (Cat r1 r2) pos s c k =
  exec r1 pos s c (fun w1 s1 c1 =>
    exec r2 (pos + String.length w1) s1 c1 (fun w2 s2 c2 => k (w1 ++ w2) s2 c2)).
Proof. reflexivity. Qed.

Lemma exec_group (n : nat) name (r : regex) pos s c (k : cont A) :
  exec (Group n name r) pos s c k =
  exec r pos s c (fun w rest c' => k w rest ((n, w) :: c')).
Proof. reflexivity. Qed.

Lemma exec_bol s c (k : cont A) : exec Bol 0 s c k = k EmptyString s c.
Proof. reflexivity. Qed.

Lemma exec_lit_app (l rest : string) pos c (k : cont A) :
  exec (Lit l) pos (l ++ rest) c k = k l rest c.
Proof. simpl. now rewrite strip_prefix_app. Qed.

Lemma exec_lit_inv (l s : string) pos c (k : cont A) x :
  exec (Lit l) pos s c k = Some x ->
  exists rest, s = l ++ rest /\ k l rest c = Some x.
Proof.
  simpl. destruct (strip_prefix l s) as [rest|] eqn:E; [|discriminate].
  intros H. exists rest. split; [now apply strip_prefix_inv | exact H].
Qed.

Lemma exec_plus_stop (cc : cclass) (w rest : string) pos c (k : cont A) :
  w <> EmptyString -> all_cc cc w = true -> stops cc rest ->
  k w rest c <> None ->
  exec (Plus cc) pos (w ++ rest) c k = k w rest c.
Proof.
  intros Hne Hw Hr Hk. destruct w as [|a w]; [contradiction|].
  simpl in Hw. apply andb_true_iff in Hw. destruct Hw as [Ha Hw].
  cbn [append exec]. rewrite Ha.
  now rewrite (star_stop cc w rest (fun w' rest' => k (String a w') rest' c) Hw Hr Hk).
Qed.

End Greedy.

Lemma before_cons (c a : ascii) (s : string) :
  before c (String a s) = if Ascii.eqb a c then EmptyString else String a (before c s).
Proof.
  unfold before. simpl. destruct (Ascii.eqb a c); [reflexivity|].
  now destruct (partition c s) as [[b sp] after].
Qed.

Lemma before_no_sep (c : ascii) (s : string) : occurs c (before c s) = false.
Proof.
  induction s as [|a s IH]; [reflexivity|].
  rewrite before_cons. destruct (Ascii.eqb a c) eqn:E; [reflexivity|].
  simpl. now rewrite E, IH.
Qed.

(** A text followed by a carriage return is the part before its first
    carriage return, then a carriage return, then the rest. *)
Lemma before_cr_split (text tail : string) :
  exists rest, text ++ String CR tail = before CR text ++ String CR rest.
Proof.
  induction text as [|a text [rest IH]].
  - now exists tail.
  - rewrite before_cons. destruct (Ascii.eqb_spec a CR) as [->|Hne].
    + now exists (text ++ String CR tail).
    + exists rest. cbn [append]. now rewrite IH.
Qed.

Lemma before_visible (text : string) :
  starts_visible text = true -> before CR text <> EmptyString.
Proof.
  destruct text as [|a text]; [discriminate|]. simpl. intros H.
  rewrite before_cons. apply negb_true_iff in H. rewrite H. discriminate.
Qed.

(* ================================================================== *)
(** * What the log entries show *)

(** The end of [SEND_MSG_RE] and of [MSG_RE]: the separator and the
    group of the text, on a text whose first carriage return comes
    after [b]. *)
Lemma text_group_eval (A : Type) (n : nat) (name : option string) (b rest : string)
  pos c (k : cont A) :
  b <> EmptyString -> occurs CR b = false ->
  k (" :" ++ b) (String CR rest) ((n, b) :: c) <> None ->
  exec (Lit " :" +++ Group n name (Plus (NotChar CR))) pos
    (" :" ++ b ++ String CR rest) c k =
  k (" :" ++ b) (String CR rest) ((n, b) :: c).
Proof.
  intros Hne Hb Hk. apply all_not_char in Hb.
  rewrite exec_cat, exec_lit_app, exec_group.
  rewrite exec_plus_stop; auto.
  reflexivity.
Qed.

(** The match of [SEND_MSG_RE] on a chat line that is sent. *)
Lemma send_match_value (ch text : string) :
  ch <> EmptyString -> occurs SP ch = false -> starts_visible text = true ->
  exists g0,
    re_match SEND_MSG_RE (privmsg ch text) =
    Some (mkMatch SEND_MSG_RE (privmsg ch text) g0 [(1%nat, before CR text)]).
Proof.
  intros Hne Hsp Hv.
  destruct (before_cr_split text (str1 LF)) as [rest Hsplit].
  pose proof (before_visible _ Hv) as Hb.
  pose proof (before_no_sep CR text) as Hcr.
  apply all_not_char in Hsp.
  unfold re_match. generalize (privmsg ch text) at 2 3. intros orig.
  unfold privmsg. change CRLF with (String CR (str1 LF)). rewrite Hsplit.
  unfold SEND_MSG_RE.
  rewrite exec_cat, exec_bol, exec_cat, exec_lit_app, exec_cat.
  rewrite exec_plus_stop; auto.
  - rewrite text_group_eval; auto; [|discriminate].
    eexists. reflexivity.
  - simpl. reflexivity.
  - rewrite text_group_eval; auto; discriminate.
Qed.

(** X14 -- the log entry of a sent chat line.  When the loop sends a
    chat line ['PRIVMSG #<channel> :<text>'], for a channel name that is
    not empty and has no space and a text that does not start with a
    carriage return, it first prints the time, the user name of the
    configuration and the text up to its first carriage return, then
    sends the line. *)
Theorem sent_chat_line_logged (config : Config) (quiet : bool) (w : World)
  (ch text : string) :
  ch <> EmptyString -> occurs SP ch = false -> starts_visible text = true ->
  reply config quiet w (Some (privmsg ch text)) =
  (Stdout (dt_str (now_send w) ++ "<" ++ username config ++ "> " ++
           before CR text ++ str1 LF)
   :: send (privmsg ch text) quiet)%list.
Proof.
  intros Hne Hsp Hv.
  destruct (@send_match_value ch text Hne Hsp Hv) as [g0 Hm].
  unfold reply. rewrite Hm. reflexivity.
Qed.

Lemma sent_chat_line_logged_witness :
  let config := mkConfig "bot" "chan" "token" "id" in
  let now := mkDatetime 2020 1 1 9 5 0 0 in
  let w := mkWorld (fun _ _ => StatusData []) now now now in
  reply config true w (Some (privmsg "chan" "not currently streaming!")) =
  [Stdout ("[09:05]<bot> not currently streaming!" ++ str1 LF);
   Write ("PRIVMSG #chan :not currently streaming!" ++ CRLF)].
Proof.
  intros config now w.
  rewrite (@sent_chat_line_logged config true w "chan" "not currently streaming!"
             ltac:(discriminate) eq_refl eq_refl).
  reflexivity.
Defined.

Lemma startswith_app_crlf (sub x : string) :
  occurs CR sub = false ->
  startswith (x ++ CRLF) sub = true -> startswith x sub = true.
Proof.
  unfold startswith. revert x.
  induction sub as [|c sub IH]; intros x Hc H; [reflexivity|].
  simpl in Hc. apply orb_false_iff in Hc. destruct Hc as [Hc Hsub].
  destruct x as [|a x]; cbn [append strip_prefix CRLF] in *.
  - rewrite Hc in H. discriminate.
  - destruct (Ascii.eqb c a); [now apply IH | discriminate].
Qed.

Lemma contains_app_crlf (body : string) :
  contains " PRIVMSG #" body = false ->
  contains " PRIVMSG #" (body ++ CRLF) = false.
Proof.
  induction body as [|a body IH]; intros H; [reflexivity|].
  cbn [contains] in H. apply orb_false_iff in H. destruct H as [Hs Hc].
  cbn [append contains]. rewrite (IH Hc), orb_false_r.
  destruct (startswith (String a (body ++ CRLF)) " PRIVMSG #") eqn:E; [|reflexivity].
  apply (startswith_app_crlf " PRIVMSG #" (String a body) eq_refl) in E. congruence.
Qed.

(** In a text that goes [<src> PRIVMSG #<chan> :<x>] with no space in
    [src] and [chan] and no [' PRIVMSG #'] in [x], the separator can
    only be read where it is. *)
Lemma chat_split_unique (src chan x ud ch y : string) :
  occurs SP src = false -> occurs SP chan = false -> occurs SP ch = false ->
  contains " PRIVMSG #" x = false ->
  src ++ " PRIVMSG #" ++ chan ++ " :" ++ x = ud ++ " PRIVMSG #" ++ ch ++ " :" ++ y ->
  ud = src /\ ch = chan /\ y = x.
Proof.
  intros Hsrc Hchan Hch Hx H. cbn [append] in H.
  destruct (split_first SP src _ _ _ Hsrc H) as [[Hud H1] | (z & Hud & H1)].
  - injection H1 as H1.
    destruct (split_first SP chan _ _ _ Hchan (eq_sym H1)) as [[-> H2] | (z & -> & _)].
    + injection H2 as H2. auto.
    + rewrite occurs_app in Hch. simpl in Hch.
      rewrite orb_true_r in Hch. discriminate.
  - exfalso.
    destruct (split_first SP "PRIVMSG" _ z _ eq_refl H1) as [[-> H2] | (z1 & -> & H2)];
      [discriminate H2|].
    assert (Hc : occurs SP ("#" ++ chan) = false) by exact Hchan.
    destruct (split_first SP ("#" ++ chan) _ z1 _ Hc H2) as [[-> H3] | (z2 & -> & H3)];
      [discriminate H3|].
    destruct z2 as [|a z3]; [discriminate H3|].
    injection H3 as _ H3.
    change (z3 ++ String SP _)
      with (z3 ++ " PRIVMSG #" ++ (ch ++ " :" ++ y)) in H3.
    subst x. now rewrite contains_app in Hx.
Qed.

Section IncomingLog.

Variable A : Type.

(** The part of [MSG_RE] after the group of the sender, on the rest of
    a chat line. *)
Lemma msg_rest_eval (src chan body : string) pos c (k : cont A) :
  occurs SP src = false -> occurs LF src = false ->
  chan <> EmptyString -> occurs SP chan = false ->
  starts_visible body = true -> contains " PRIVMSG #" body = false ->
  (forall w rest c', k w rest c' <> None) ->
  exists w rest,
    exec (Star Dot +++ Lit " PRIVMSG #" +++ Plus (NotChar SP) +++ Lit " :" +++
          Group 2 None (Plus (NotChar CR)))%re pos
      (src ++ " PRIVMSG #" ++ chan ++ " :" ++ body ++ CRLF) c k =
    k w rest ((2%nat, before CR body) :: c).
Proof.
  intros Hsrc Hlf Hne Hchan Hv Hbody Hk.
  destruct (before_cr_split body (str1 LF)) as [tail Hsplit].
  change (String CR (str1 LF)) with CRLF in Hsplit.
  pose proof (before_visible _ Hv) as Hb.
  pose proof (before_no_sep CR body) as Hcr.
  set (b := before CR body) in *.
  set (R := (Star Dot +++ Lit " PRIVMSG #" +++ Plus (NotChar SP) +++ Lit " :" +++
             Group 2 None (Plus (NotChar CR)))%re).
  set (s := src ++ " PRIVMSG #" ++ chan ++ " :" ++ body ++ CRLF).
  destruct (exec R pos s c k) as [x|] eqn:E.
  - unfold R in E. rewrite exec_cat in E.
    apply exec_sound in E. destruct E as (d & s1 & c1 & Hs & Hd & E).
    inversion Hd; subst c1. clear Hd.
    rewrite exec_cat in E. apply exec_lit_inv in E. destruct E as (s2 & -> & E).
    rewrite exec_cat in E.
    apply exec_sound in E. destruct E as (ch & s3 & c3 & -> & Hch & E).
    inversion Hch; subst c3.
    match goal with H : all_cc (NotChar SP) ch = true |- _ =>
      apply all_not_char in H; rename H into Hsp end.
    pose proof E as E'. rewrite exec_cat in E'. apply exec_lit_inv in E'.
    destruct E' as (s4 & -> & _).
    unfold s in Hs.
    destruct (@chat_split_unique src chan (body ++ CRLF) d ch s4 Hsrc Hchan Hsp
                (contains_app_crlf _ Hbody) Hs) as (-> & -> & ->).
    rewrite Hsplit in E. rewrite text_group_eval in E by (auto; apply Hk).
    rewrite <- E. eexists _, _. reflexivity.
  - exfalso. revert E. unfold s. rewrite Hsplit.
    apply all_dot_no_lf in Hlf. apply all_not_char in Hchan, Hcr.
    assert (Hm : matches R pos (src ++ " PRIVMSG #" ++ chan ++ " :" ++ b)
                   (String CR tail) c ((2%nat, b) :: c)).
    { unfold R. repeat (first [eassumption | econstructor]). }
    pose proof (exec_complete Hm k
                  (Hk (src ++ " PRIVMSG #" ++ chan ++ " :" ++ b)
                      (String CR tail) ((2%nat, b) :: c))) as Hc.
    revert Hc. now rewrite !sapp_assoc.
Qed.

End IncomingLog.

(** The match of [MSG_RE] on a chat line. *)
Lemma msg_match_value (nick userhost chan body : string) :
  chat_parts_ok (source nick userhost) chan body = true ->
  occurs "!" nick = false ->
  starts_visible body = true -> contains " PRIVMSG #" body = false ->
  exists g0,
    re_match MSG_RE (chat_line (source nick userhost) chan body) =
    Some (mkMatch MSG_RE (chat_line (source nick userhost) chan body) g0
            [(2%nat, before CR body); (1%nat, nick)]).
Proof.
  intros Hok Hbang Hv Hbody.
  apply chat_parts_ok_inv in Hok.
  destruct Hok as ((a & src' & Hsrc & Ha) & Hsp & Hlf & Hne & Hchan & _ & _).
  assert (Hnick : nick <> EmptyString).
  { intros ->. unfold source in Hsrc. simpl in Hsrc. injection Hsrc as <- _.
    now apply Ha. }
  unfold source in Hsp, Hlf. rewrite occurs_app in Hsp, Hlf.
  apply orb_false_iff in Hsp, Hlf.
  destruct Hsp as [_ Hsp], Hlf as [_ Hlf].
  apply all_not_char in Hbang.
  unfold re_match.
  generalize (chat_line (source nick userhost) chan body) at 2 3. intros orig.
  replace (chat_line (source nick userhost) chan body)
    with (":" ++ nick ++
          ("!" ++ userhost) ++ " PRIVMSG #" ++ chan ++ " :" ++ body ++ CRLF)
    by (unfold chat_line, source; now rewrite !sapp_assoc).
  unfold MSG_RE.
  rewrite exec_cat, exec_bol, exec_cat, exec_lit_app, exec_cat, exec_group.
  rewrite (@exec_plus_stop Match (NotChar "!") nick
             (("!" ++ userhost) ++ " PRIVMSG #" ++ chan ++ " :" ++ body ++ CRLF)
             _ _ _ Hnick Hbang eq_refl);
    cbv beta;
    match goal with
    | |- context [exec _ ?pos _ ?c ?k] =>
        destruct (@msg_rest_eval Match ("!" ++ userhost) chan body pos c k
                    Hsp Hlf Hne Hchan Hv Hbody ltac:(discriminate))
          as (w2 & rest2 & Heval)
    end;
    rewrite Heval.
  - eexists. reflexivity.
  - discriminate.
Qed.

(** X15 -- the log entry of an incoming chat message.  For every chat
    line of a sender [nick!user@host] whose body does not start with a
    carriage return and does not contain [' PRIVMSG #'], the loop
    prints the time, the nick and the body up to its first carriage
    return, whatever the registry holds and whether or not a rule
    matches the line. *)
Theorem incoming_chat_line_logged (handlers : list rule) (config : Config)
  (quiet : bool) (w : World) (nick userhost chan body : string) :
  chat_parts_ok (source nick userhost) chan body = true ->
  occurs "!" nick = false ->
  starts_visible body = true -> contains " PRIVMSG #" body = false ->
  log_incoming w (chat_line (source nick userhost) chan body) =
    [Stdout (dt_str (now_recv w) ++ "<" ++ nick ++ "> " ++ before CR body ++ str1 LF)] /\
  In (Stdout (dt_str (now_recv w) ++ "<" ++ nick ++ "> " ++ before CR body ++ str1 LF))
     (fst (iteration handlers config quiet w
             (chat_line (source nick userhost) chan body))).
Proof.
  intros Hok Hbang Hv Hbody.
  destruct (msg_match_value _ _ _ _ Hok Hbang Hv Hbody) as [g0 Hm].
  assert (Hlog : log_incoming w (chat_line (source nick userhost) chan body) =
                 [Stdout (dt_str (now_recv w) ++ "<" ++ nick ++ "> " ++
                          before CR body ++ str1 LF)]).
  { unfold log_incoming. rewrite Hm. reflexivity. }
  split; [exact Hlog|].
  unfold iteration.
  destruct (dispatch 0 handlers config quiet w _) as [ev f]. cbn [fst].
  rewrite Hlog. apply in_or_app. right. now left.
Qed.

(** A message that no rule handles is logged all the same. *)
Lemma incoming_chat_line_logged_witness :
  let config := mkConfig "bot" "chan" "token" "id" in
  let now := mkDatetime 2020 1 1 23 7 0 0 in
  let w := mkWorld (fun _ _ => StatusData []) now now now in
  iteration HANDLERS config true w
    (":alice!alice@alice.tmi.twitch.tv PRIVMSG #chan :hello there" ++ CRLF) =
  ([Stdout ("[23:07]<alice> hello there" ++ str1 LF)], Continue).
Proof.
  intros config now w.
  pose proof (proj1 (@incoming_chat_line_logged HANDLERS config true w
                "alice" "alice@alice.tmi.twitch.tv" "chan" "hello there"
                eq_refl eq_refl eq_refl eq_refl)) as H.
  unfold iteration.
  change (chat_line (source "alice" "alice@alice.tmi.twitch.tv") "chan" "hello there")
    with (":alice!alice@alice.tmi.twitch.tv PRIVMSG #chan :hello there" ++ CRLF) in H.
  rewrite H. reflexivity.
Defined.

(* ================================================================== *)
(** * Escaping, timestamps *)

(** X16 -- escaping and formatting are inverse.  For every text and
    every set of keyword arguments, formatting the escaped text gives
    the text back and raises nothing; so [esc] loses nothing: two
    texts with the same escaped form are the same text. *)
Theorem esc_format_roundtrip (s : string) :
  (forall kw, format (esc s) kw = Return s) /\
  (forall s', esc s = esc s' -> s = s').
Proof.
  split; [apply format_esc|].
  intros s' H.
  pose proof (format_esc s []) as H1. pose proof (format_esc s' []) as H2.
  rewrite H in H1. congruence.
Qed.

Lemma esc_format_roundtrip_witness :
  format (esc "{user} }}{{ {0!r:>{w}}") [("user", Some "alice")] =
  Return "{user} }}{{ {0!r:>{w}}".
Proof. exact (proj1 (esc_format_roundtrip "{user} }}{{ {0!r:>{w}}") _). Defined.

Local Open Scope Z_scope.

Lemma fmt02_two_digits_nat (n : nat) :
  (n < 100)%nat ->
  fmt02 (Z.of_nat n) =
  String (digit (Z.of_nat n / 10)) (str1 (digit (Z.of_nat n mod 10))).
Proof.
  intros H.
  do 100 (destruct n as [|n]; [reflexivity|]).
  lia.
Qed.

Lemma fmt02_two_digits (n : Z) :
  0 <= n < 100 ->
  fmt02 n = String (digit (n / 10)) (str1 (digit (n mod 10))).
Proof.
  intros H. rewrite <- (Z2Nat.id n) by lia.
  apply fmt02_two_digits_nat. lia.
Qed.

(** X17 -- the timestamp of the log.  For every time of day, [dt_str]
    is seven characters: a bracket, the hour on two digits, a colon,
    the minute on two digits, a bracket; hours and minutes below ten
    get a leading zero. *)
Theorem dt_str_shape (dt_now : datetime) :
  0 <= hour dt_now < 24 -> 0 <= minute dt_now < 60 ->
  dt_str dt_now =
    String "[" (String (digit (hour dt_now / 10)) (String (digit (hour dt_now mod 10))
      (String ":" (String (digit (minute dt_now / 10))
         (String (digit (minute dt_now mod 10)) "]"))))) /\
  String.length (dt_str dt_now) = 7%nat.
Proof.
  intros Hh Hm. unfold dt_str.
  rewrite (@fmt02_two_digits (hour dt_now)), (@fmt02_two_digits (minute dt_now)) by lia.
  split; reflexivity.
Qed.

Lemma dt_str_shape_witness :
  dt_str (mkDatetime 2020 1 1 7 3 59 0) = "[07:03]"%string.
Proof.
  refine (eq_trans (proj1 (@dt_str_shape (mkDatetime 2020 1 1 7 3 59 0) _ _)) eq_refl);
    simpl; lia.
Defined.

Local Close Scope Z_scope.

(* ================================================================== *)
(** * More on the rules *)

(** X18 -- a keep-alive leaves the chat log alone.  For every payload
    such that ['PING <payload>\r\n'] is a line, the whole iteration is:
    the trace of the line read, the call of the keep-alive handler and
    the sending of ['PONG <payload>\r\n']; nothing is printed to
    standard output. *)
Theorem keepalive_trace (payload : string) (config : Config) (quiet : bool) (w : World) :
  is_line ("PING " ++ payload ++ CRLF) = true ->
  iteration HANDLERS config quiet w ("PING " ++ payload ++ CRLF) =
  ((recv ("PING " ++ payload ++ CRLF) quiet ++
    Call 0 :: send ("PONG " ++ payload ++ CRLF) quiet)%list, Continue).
Proof.
  intros Hl.
  assert (Hp : occurs LF payload = false).
  { change ("PING " ++ payload ++ CRLF) with ("PING " ++ (payload ++ CRLF)) in Hl.
    rewrite <- sapp_assoc in Hl. apply is_line_crlf_inv in Hl.
    rewrite occurs_app in Hl. now apply orb_false_iff in Hl. }
  unfold iteration. rewrite HANDLERS_eq. cbn [dispatch].
  rewrite (pong_match_line _ Hp).
  rewrite (@writes_respond_return 0 pong
             (mkMatch PONG_PATTERN ("PING " ++ payload ++ CRLF)
                ("PING " ++ payload ++ CRLF) [(1%nat, payload)])
             config quiet w
             (CmdResponse ("PONG " ++ payload ++ CRLF))
             (Some ("PONG " ++ payload ++ CRLF)) eq_refl eq_refl).
  reflexivity.
Qed.

Lemma keepalive_trace_witness :
  let config := mkConfig "bot" "chan" "token" "id" in
  let now := mkDatetime 2020 1 1 0 0 0 0 in
  let w := mkWorld (fun _ _ => StatusData []) now now now in
  iteration HANDLERS config false w ("PING :tmi.twitch.tv" ++ CRLF) =
  ([Stderr ("> PING :tmi.twitch.tv" ++ CRLF); Call 0;
    Stderr ("< PONG :tmi.twitch.tv" ++ CRLF); Write ("PONG :tmi.twitch.tv" ++ CRLF)],
   Continue).
Proof.
  intros config now w.
  exact (@keepalive_trace ":tmi.twitch.tv" config false w eq_refl).
Defined.

(** X19 -- several prefixes, one handler.  When [handle_message]
    registers a handler for several prefixes of literal characters,
    every chat line whose body begins with one of the prefixes is
    answered by that handler: the loop runs its pipeline on the match
    of the first of the registered patterns that matches the line. *)
Theorem shared_handler_fires (message_prefixes : list string) (func : Callback)
  (config : Config) (quiet : bool) (w : World) (prefix src chan tail : string) :
  forallb is_literal message_prefixes = true ->
  In prefix message_prefixes ->
  chat_parts_ok src chan (prefix ++ tail) = true ->
  exists i p m,
    nth_error message_prefixes i = Some p /\
    re_match (MESSAGE_PATTERN p) (chat_line src chan (prefix ++ tail)) = Some m /\
    (forall j pj, (j < i)%nat -> nth_error message_prefixes j = Some pj ->
       re_match (MESSAGE_PATTERN pj) (chat_line src chan (prefix ++ tail)) = None) /\
    dispatch 0 (handle_message message_prefixes func []) config quiet w
      (chat_line src chan (prefix ++ tail)) =
    respond i func m config quiet w.
Proof.
  intros _ Hin Hok. unfold handle_message, handler. cbn [app].
  set (line := chat_line src chan (prefix ++ tail)).
  assert (H : forall k,
             exists i p m,
               nth_error message_prefixes i = Some p /\
               re_match (MESSAGE_PATTERN p) line = Some m /\
               (forall j pj, (j < i)%nat -> nth_error message_prefixes j = Some pj ->
                  re_match (MESSAGE_PATTERN pj) line = None) /\
               dispatch k
                 (map (fun p => (registered p, func)) (map message_pattern message_prefixes))
                 config quiet w line =
               respond (k + i) func m config quiet w).
  { induction message_prefixes as [|p0 ps IH]; [destruct Hin|].
    intros k. cbn [map dispatch].
    fold (MESSAGE_PATTERN p0).
    destruct (re_match (MESSAGE_PATTERN p0) line) as [m|] eqn:E.
    - exists 0%nat, p0, m. repeat split; auto.
      + intros j pj Hj. lia.
      + now rewrite Nat.add_0_r.
    - destruct Hin as [-> | Hin].
      + unfold line in E. now apply chat_pattern_fires in Hok.
      + destruct (IH Hin (S k)) as (i & p & m & Hn & Hm & Hprev & Hd).
        exists (S i), p, m. repeat split; auto.
        * intros [|j] pj Hj Hnj; cbn in Hnj.
          -- injection Hnj as <-. exact E.
          -- apply (Hprev j pj); [lia | exact Hnj].
        * rewrite Hd. f_equal. lia. }
  destruct (H 0%nat) as (i & p & m & Hn & Hm & Hprev & Hd).
  exists i, p, m. auto.
Qed.

Lemma shared_handler_fires_witness :
  let greet : Callback := fun m => Return (MessageResponse m "hello {user}") in
  let config := mkConfig "bot" "chan" "token" "id" in
  let now := mkDatetime 2020 1 1 0 0 0 0 in
  let w := mkWorld (fun _ _ => StatusData []) now now now in
  let line := ":alice!alice@x PRIVMSG #chan :!hello all" ++ CRLF in
  exists i p m,
    nth_error ["!hi"; "!hello"] i = Some p /\
    re_match (MESSAGE_PATTERN p) line = Some m /\
    (forall j pj, (j < i)%nat -> nth_error ["!hi"; "!hello"] j = Some pj ->
       re_match (MESSAGE_PATTERN pj) line = None) /\
    dispatch 0 (handle_message ["!hi"; "!hello"] greet []) config true w line =
    respond i greet m config true w.
Proof.
  intros greet config now w line.
  exact (@shared_handler_fires ["!hi"; "!hello"] greet config true w
           "!hello" "alice!alice@x" "chan" " all"
           eq_refl (or_intror (or_introl eq_refl)) eq_refl).
Defined.

(** A template with plain fields is within what [format] models. *)
Lemma plain_from_modelled (kw : kwargs) (fmt : string) (field : option string) :
  plain_from (match field with Some _ => true | None => false end) fmt = true ->
  format_from field fmt kw <> Unmodelled.
Proof.
  assert (Hp : forall a (r : outcome string), r <> Unmodelled -> prepend a r <> Unmodelled).
  { intros a [x|e|] H; simpl; congruence. }
  assert (Hn : forall n fmt' field',
             (String.length fmt' <= n)%nat ->
             plain_from (match field' with Some _ => true | None => false end) fmt' = true ->
             format_from field' fmt' kw <> Unmodelled).
  { induction n as [|n IH]; intros [|a rest] [name|] Hlen H;
      try discriminate; simpl in Hlen; try lia.
    - cbn [plain_from] in H. cbn [format_from].
      destruct (Ascii.eqb a "}").
      + assert (Hr : format_from None rest kw <> Unmodelled)
          by (apply IH; [lia | exact H]).
        unfold field_value.
        destruct (all_digits name);
          [destruct (PY_SSIZE_T_MAX <? decimal_value 0 name)%Z; discriminate|].
        destruct (getitem name kw); [|discriminate]. cbn [bind].
        destruct (format_from None rest kw); simpl; congruence.
      + apply andb_true_iff in H. destruct H as [Hs H].
        apply negb_true_iff in Hs. rewrite Hs.
        apply (IH rest (Some (name ++ str1 a))); [lia | exact H].
    - cbn [plain_from] in H. cbn [format_from].
      destruct (Ascii.eqb a "{").
      + destruct rest as [|b rest']; [discriminate|]. simpl in Hlen.
        destruct (Ascii.eqb b "{").
        * apply Hp. apply (IH rest' None); [lia | exact H].
        * apply (IH (String b rest') (Some EmptyString)); [simpl; lia | exact H].
      + destruct (Ascii.eqb a "}").
        * destruct rest as [|b rest']; [discriminate|]. simpl in Hlen.
          destruct (Ascii.eqb b "}"); [|discriminate].
          apply Hp. apply (IH rest' None); [lia | exact H].
        * apply Hp. apply (IH rest None); [lia | exact H]. }
  apply (Hn (String.length fmt)). lia.
Qed.

(** X20 -- a templated reply.  For every match of a pattern built by
    [handle_message] for a prefix of literal characters, and every
    message template whose replacement fields are plain names, the
    response formats the template with the captured user, channel and
    message; if that succeeds with the text [t] it resolves to
    ['PRIVMSG #<captured channel> :<t>\r\n'], and if formatting raises
    (KeyError for a name that is no group, IndexError for an empty or
    numeric name, ValueError for a brace left alone) the call raises
    the same exception. *)
Theorem message_response_call (message_prefix line : string) (m : Match) :
  is_literal message_prefix = true ->
  re_match (MESSAGE_PATTERN message_prefix) line = Some m ->
  exists user ch body,
    group m 1 = Some user /\ group m 2 = Some ch /\ group m 3 = Some body /\
    forall msg_fmt config w,
      plain_template msg_fmt = true ->
      call (MessageResponse m msg_fmt) config w <> Unmodelled /\
      call (MessageResponse m msg_fmt) config w =
      (t <- format msg_fmt [("user", Some user); ("channel", Some ch);
                            ("msg", Some body)] ;;
       Return (Some ("PRIVMSG #" ++ ch ++ " :" ++ t ++ CRLF))).
Proof.
  intros _ Hm.
  destruct (message_match_inv _ _ Hm)
    as (u & d & ch & t & e & _ & _ & _ & _ & _ & _ & _ & _ & ->).
  exists u, ch, (message_prefix ++ t).
  split; [reflexivity|]. split; [reflexivity|]. split; [reflexivity|].
  intros msg_fmt config w Hplain. cbn [call MessageResponse].
  change (groupdict _) with
    [("user", Some u); ("channel", Some ch); ("msg", Some (message_prefix ++ t))].
  pose proof (@plain_from_modelled
                [("user", Some u); ("channel", Some ch);
                 ("msg", Some (message_prefix ++ t))] msg_fmt None Hplain) as Hmod.
  unfold format.
  destruct (format_from None msg_fmt _) as [txt| |];
    [| |contradiction]; split; try reflexivity; discriminate.
Qed.

Lemma message_response_call_witness :
  let config := mkConfig "bot" "chan" "token" "id" in
  let now := mkDatetime 2020 1 1 0 0 0 0 in
  let w := mkWorld (fun _ _ => StatusData []) now now now in
  let line := ":alice!alice@x PRIVMSG #chan :!hello all" ++ CRLF in
  is_literal "!hello" = true /\
  exists m,
    re_match (MESSAGE_PATTERN "!hello") line = Some m /\
    call (MessageResponse m "hi {user}, you said {msg} on {channel} {{sic}}") config w =
      Return (Some ("PRIVMSG #chan :hi alice, you said !hello all on chan {sic}" ++ CRLF)) /\
    call (MessageResponse m "{nick}") config w = Raise (Exc "KeyError") /\
    call (MessageResponse m "{0}") config w = Raise (Exc "IndexError") /\
    call (MessageResponse m "oops }") config w = Raise (Exc "ValueError").
Proof.
  intros config now w line. split; [reflexivity|].
  eexists. split; [reflexivity|].
  destruct (@message_response_call "!hello" line _ eq_refl eq_refl)
    as (user & ch & body & Hu & Hc & Hb & H).
  injection Hu as <-. injection Hc as <-. injection Hb as <-.
  rewrite (proj2 (H "hi {user}, you said {msg} on {channel} {{sic}}" config w eq_refl)).
  rewrite (proj2 (H "{nick}" config w eq_refl)).
  rewrite (proj2 (H "{0}" config w eq_refl)).
  rewrite (proj2 (H "oops }" config w eq_refl)).
  repeat split.
Defined.
